(** * IntervalTimePicker: duration clamping and keyboard editing

    A shallow embedding of [src/components/IntervalTimePicker.tsx].

    Conventions of the embedding.
    - A TypeScript [number] that holds a field value is a [Z].  The component
      only adds and subtracts one, multiplies by the three unit constants and
      compares, which is exact on integers below [2^53]; fractional values,
      [NaN] and the infinities are outside the embedding.
    - A JavaScript string is a [string]; each character is one code unit.
    - A call of a callback prop is an event of a trace; an event handler is a
      function to the list of calls it makes, in program order.
    - An optional callback prop is a [bool]: whether the parent supplied it. *)

From Stdlib Require Import ZArith List String Ascii Bool Lia DecimalString.
From Stdlib Require DecimalPos.
Import ListNotations.
Local Open Scope Z_scope.

(** ** The JavaScript primitives the component calls *)

Module Js.

(** [Number.prototype.toString()] on an integer: its decimal digits, after
    a minus sign when it is negative (JavaScript prints integers this way
    below [1e21]). *)
Definition toString (n : Z) : string :=
  NilZero.string_of_int (Z.to_int n).

Fixpoint replicate (n : nat) (c : ascii) : string :=
  match n with
  | O => EmptyString
  | S k => String c (replicate k c)
  end.

(** [s.padStart(targetLength, c)] for a one-character filler [c]: a string
    that is already long enough is returned as it is (never truncated). *)
Definition padStart (s : string) (targetLength : nat) (c : ascii) : string :=
  (replicate (targetLength - String.length s) c ++ s)%string.

(** [s.slice(start)] for a start index that is not negative. *)
Fixpoint slice (s : string) (start : nat) : string :=
  match start, s with
  | O, _ => s
  | S _, EmptyString => EmptyString
  | S k, String _ rest => slice rest k
  end.

Definition isDigit (c : ascii) : bool :=
  let n := nat_of_ascii c in (48 <=? n)%nat && (n <=? 57)%nat.

Definition digitValue (c : ascii) : Z :=
  Z.of_nat (nat_of_ascii c) - 48.

(** White space skipped by [parseInt], among the code units below 256:
    TAB, LF, VT, FF, CR, SP and NBSP. *)
Definition isWhiteSpace (c : ascii) : bool :=
  let n := nat_of_ascii c in
  ((9 <=? n)%nat && (n <=? 13)%nat) || (n =? 32)%nat || (n =? 160)%nat.

Fixpoint trimStart (s : string) : string :=
  match s with
  | String c rest => if isWhiteSpace c then trimStart rest else s
  | EmptyString => EmptyString
  end.

(** The value of the longest prefix of decimal digits, read left to right
    with [acc] the value of the digits already consumed. *)
Fixpoint digitsValue (acc : Z) (s : string) : Z :=
  match s with
  | String c rest =>
      if isDigit c then digitsValue (10 * acc + digitValue c) rest else acc
  | EmptyString => acc
  end.

Definition startsWithDigit (s : string) : bool :=
  match s with
  | String c _ => isDigit c
  | EmptyString => false
  end.

(** [parseInt(s, 10)]; [None] is [NaN].  With radix 10 no [0x] prefix is
    stripped. *)
Definition parseInt (s : string) : option Z :=
  let t := trimStart s in
  let '(sign, body) :=
    match t with
    | String "-"%char rest => (-1, rest)
    | String "+"%char rest => (1, rest)
    | _ => (1, t)
    end in
  if startsWithDigit body then Some (sign * digitsValue 0 body) else None.

Fixpoint allDigits (s : string) : bool :=
  match s with
  | String c rest => isDigit c && allDigits rest
  | EmptyString => true
  end.

(** [/^\d$/.test(s)]: [s] is exactly one decimal digit. *)
Definition isSingleDigit (s : string) : bool :=
  match s with
  | String c EmptyString => isDigit c
  | _ => false
  end.

End Js.

(** ** Durations *)

Record Duration : Type := mkDuration {
  hours : Z;
  minutes : Z;
  seconds : Z
}.

(** [keyof Duration] *)
Inductive Field : Type := Hours | Minutes | Seconds.

Definition Field_eqb (f g : Field) : bool :=
  match f, g with
  | Hours, Hours | Minutes, Minutes | Seconds, Seconds => true
  | _, _ => false
  end.

Definition getField (f : Field) (d : Duration) : Z :=
  match f with
  | Hours => hours d
  | Minutes => minutes d
  | Seconds => seconds d
  end.

(** ** The zod schema *)

Module Zod.

Inductive IssueCode : Type := too_small | too_big.

Record Issue : Type := mkIssue {
  code : IssueCode;
  path : Field
}.

(** [z.number().min(lo)] *)
Definition checkMin (f : Field) (lo v : Z) : list Issue :=
  if v <? lo then [mkIssue too_small f] else [].

(** [z.number().max(hi)] *)
Definition checkMax (f : Field) (hi v : Z) : list Issue :=
  if v >? hi then [mkIssue too_big f] else [].

End Zod.

(** The issues [durationSchema] finds, key by key in the order of the
    object's shape. *)
Definition durationSchema_issues (d : Duration) : list Zod.Issue :=
  Zod.checkMin Hours 0 (hours d)
  ++ (Zod.checkMin Minutes 0 (minutes d) ++ Zod.checkMax Minutes 59 (minutes d))
  ++ (Zod.checkMin Seconds 0 (seconds d) ++ Zod.checkMax Seconds 59 (seconds d)).

(** [durationSchema.parse]: the parsed value, or the [ZodError] it throws. *)
Definition durationSchema_parse (d : Duration) : list Zod.Issue + Duration :=
  match durationSchema_issues d with
  | [] => inr d
  | errors => inl errors
  end.

(** The shape the schema describes, as a predicate. *)
Definition validShape (d : Duration) : Prop :=
  0 <= hours d /\ 0 <= minutes d <= 59 /\ 0 <= seconds d <= 59.

Definition DEFAULT_MIN_INTERVAL : Duration := mkDuration 0 0 0.

Definition DEFAULT_MAX_INTERVAL : Duration := mkDuration 999999 59 59.

Definition durationToMs (duration : Duration) : Z :=
  hours duration * 3600000 + minutes duration * 60000 + seconds duration * 1000.

Definition getNextValidDuration
    (duration minInterval maxInterval : Duration) : Duration :=
  let durationMs := durationToMs duration in
  let minIntervalMs := durationToMs minInterval in
  let maxIntervalMs := durationToMs maxInterval in
  if durationMs <? minIntervalMs then minInterval
  else if durationMs >? maxIntervalMs then maxInterval
  else duration.

Definition getMaxValueForField
    (field : Field) (currentDuration maxInterval : Duration) : Z :=
  if Field_eqb field Hours then hours maxInterval
  else if hours currentDuration =? hours maxInterval then
    if Field_eqb field Minutes then minutes maxInterval
    else if Field_eqb field Seconds
            && (minutes currentDuration =? minutes maxInterval)
    then seconds maxInterval
    else 59
  else 59.

Definition getMinValueForField
    (field : Field) (currentDuration minInterval : Duration) : Z :=
  if Field_eqb field Hours then hours minInterval
  else if hours currentDuration =? hours minInterval then
    if Field_eqb field Minutes then minutes minInterval
    else if Field_eqb field Seconds
            && (minutes currentDuration =? minutes minInterval)
    then seconds minInterval
    else 0
  else 0.

Definition formatNumber (value : Z) : string :=
  Js.padStart (Js.toString value) 2 "0"%char.

(** ** One numeric cell: [IntervalInput] *)

Module IntervalInput.

Record Props : Type := mkProps {
  value : Z;
  min : Z;
  max : Z;
  onLeftFocus : bool;
  onRightFocus : bool;
  isLastField : bool
}.

(** What a handler of the cell does: calls of the event's
    [preventDefault] and of the callback props. *)
Inductive Call : Type :=
| PreventDefault
| OnChange (v : Z)
| OnLeftFocus
| OnRightFocus.

(** The string [newStr] the digit branch parses. *)
Definition rolledString (v : Z) (key : string) : string :=
  let currentStr := Js.padStart (Js.toString v) 2 "0"%char in
  (Js.slice currentStr 1 ++ key)%string.

(** The digit branch of [handleKeyDown], after its [preventDefault].
    A comparison with [NaN] is false, so a [parseInt] that fails takes the
    else side. *)
Definition digitEntry (p : Props) (key : string) : list Call :=
  let newValue := Js.parseInt (rolledString (value p) key) in
  let single :=
    match Js.parseInt key with
    | Some k => if (k >=? min p) && (k <=? max p) then [OnChange k] else []
    | None => []
    end in
  match newValue with
  | Some n =>
      if (n >=? min p) && (n <=? max p) then
        OnChange n
        :: (if onRightFocus p && negb (isLastField p)
            then [OnRightFocus] else [])
      else single
  | None => single
  end.

(** The [if] statements of [handleKeyDown] run one after the other; only
    [Tab] returns early. *)
Definition handleKeyDown (p : Props) (key : string) : list Call :=
  if (key =? "Tab")%string then []
  else
    (if (key =? "ArrowLeft")%string && onLeftFocus p
     then [PreventDefault; OnLeftFocus] else [])
    ++ (if (key =? "ArrowRight")%string && onRightFocus p
           && negb (isLastField p)
        then [PreventDefault; OnRightFocus] else [])
    ++ (if (key =? "ArrowUp")%string then
          let newValue := value p + 1 in
          [PreventDefault;
           OnChange (if newValue >? max p then min p else newValue)]
        else [])
    ++ (if (key =? "ArrowDown")%string then
          let newValue := value p - 1 in
          [PreventDefault;
           OnChange (if newValue <? min p then max p else newValue)]
        else [])
    ++ (if Js.isSingleDigit key
        then PreventDefault :: digitEntry p key else []).

(** The [onChange] of the inner text input: [text] is [e.target.value]. *)
Definition handleChange (p : Props) (text : string) : list Call :=
  match Js.parseInt text with
  | Some val =>
      if (val >=? min p) && (val <=? max p) then [OnChange val] else []
  | None => []
  end.

(** The values a trace passes to [onChange]. *)
Fixpoint committed (calls : list Call) : list Z :=
  match calls with
  | OnChange v :: rest => v :: committed rest
  | _ :: rest => committed rest
  | [] => []
  end.

Definition movesFocus (c : Call) : bool :=
  match c with
  | OnLeftFocus | OnRightFocus => true
  | _ => false
  end.

End IntervalInput.

(** ** The composite editor: [IntervalTimePicker] *)

Module IntervalPreset.

Record t : Type := mkPreset {
  id : string;
  value : string;
  label : string;
  duration : option Duration
}.

End IntervalPreset.

(** The props as the parent passes them: an optional prop is an [option],
    [setInterval] is required, [onPresetChange] may be missing. *)
Module Props.

Record t : Type := mkProps {
  interval : Duration;
  minInterval : option Duration;
  maxInterval : option Duration;
  showHours : option bool;
  showMinutes : option bool;
  showSeconds : option bool;
  presets : option (list IntervalPreset.t);
  selectedPreset : option string;
  onPresetChange : bool
}.

End Props.

Definition orDefault {A : Type} (o : option A) (d : A) : A :=
  match o with
  | Some a => a
  | None => d
  end.

(** What the component does to the outside: calls of the two callbacks, the
    diagnostic on the console, and focus given to one of the three cells. *)
Inductive Effect : Type :=
| SetInterval (d : Duration)
| OnPresetChange (value : string)
| ConsoleError (errors : list Zod.Issue)
| Focus (f : Field).

(** The preset [Array.prototype.find] returns for a key: the first one whose
    [value] is the key. *)
Definition findPreset (l : list IntervalPreset.t) (key : string)
  : option IntervalPreset.t :=
  List.find (fun p => (IntervalPreset.value p =? key)%string) l.

Section Component.

Variable props : Props.t.

(** The destructured props, with their defaults. *)
Definition interval : Duration := Props.interval props.
Definition minInterval : Duration :=
  orDefault (Props.minInterval props) DEFAULT_MIN_INTERVAL.
Definition maxInterval : Duration :=
  orDefault (Props.maxInterval props) DEFAULT_MAX_INTERVAL.
Definition showHours : bool := orDefault (Props.showHours props) true.
Definition showMinutes : bool := orDefault (Props.showMinutes props) true.
Definition showSeconds : bool := orDefault (Props.showSeconds props) true.
Definition presets : list IntervalPreset.t :=
  orDefault (Props.presets props) [].

Definition isCustomMode : bool :=
  match Props.selectedPreset props with
  | Some s => (s =? "custom")%string
  | None => false
  end.

Definition showCustomFields : bool :=
  isCustomMode || (Nat.eqb (List.length presets) 0).

Definition adjustedInterval (newInterval : Duration) : Duration :=
  {| hours := if showHours then hours newInterval else 0;
     minutes := if showMinutes then minutes newInterval else 0;
     seconds := if showSeconds then seconds newInterval else 0 |}.

Definition handleIntervalChange (newInterval : Duration) : list Effect :=
  let adjusted := adjustedInterval newInterval in
  match durationSchema_parse adjusted with
  | inr _ =>
      let validInterval :=
        getNextValidDuration adjusted minInterval maxInterval in
      [SetInterval validInterval]
  | inl errors => [ConsoleError errors; SetInterval interval]
  end.

Definition handlePresetChange (value : string) : list Effect :=
  let preset := findPreset presets value in
  (match preset with
   | Some p =>
       match IntervalPreset.duration p with
       | Some d => handleIntervalChange d
       | None => []
       end
   | None => []
   end)
  ++ (if Props.onPresetChange props then [OnPresetChange value] else []).

Definition setHours (h : Z) : list Effect :=
  handleIntervalChange
    {| hours := h; minutes := minutes interval; seconds := seconds interval |}.

Definition setMinutes (m : Z) : list Effect :=
  handleIntervalChange
    {| hours := hours interval; minutes := m; seconds := seconds interval |}.

Definition setSeconds (s : Z) : list Effect :=
  handleIntervalChange
    {| hours := hours interval; minutes := minutes interval; seconds := s |}.

Definition lastField : Field :=
  if showSeconds then Seconds else if showMinutes then Minutes else Hours.

Definition shown (f : Field) : bool :=
  match f with
  | Hours => showHours
  | Minutes => showMinutes
  | Seconds => showSeconds
  end.

(** A cell is in the document when the raw fields are shown and the cell is
    not hidden; its ref is attached exactly then. *)
Definition rendered (f : Field) : bool := showCustomFields && shown f.

(** [ref.current?.focus()] *)
Definition focusRef (f : Field) : list Effect :=
  if rendered f then [Focus f] else [].

(** The props each cell is rendered with. *)
Definition inputProps (f : Field) : IntervalInput.Props :=
  {| IntervalInput.value := getField f interval;
     IntervalInput.min := getMinValueForField f interval minInterval;
     IntervalInput.max := getMaxValueForField f interval maxInterval;
     IntervalInput.onLeftFocus :=
       match f with Hours => false | _ => true end;
     IntervalInput.onRightFocus :=
       match f with Seconds => false | _ => true end;
     IntervalInput.isLastField :=
       match f with Seconds => true | _ => Field_eqb lastField f end |}.

(** The arrow functions passed as [onLeftFocus] and [onRightFocus]. *)
Definition leftFocus (f : Field) : list Effect :=
  match f with
  | Hours => []
  | Minutes => if showHours then focusRef Hours else []
  | Seconds => if showMinutes then focusRef Minutes else []
  end.

Definition rightFocus (f : Field) : list Effect :=
  match f with
  | Hours => if showMinutes then focusRef Minutes else []
  | Minutes => if showSeconds then focusRef Seconds else []
  | Seconds => []
  end.

Definition setField (f : Field) (v : Z) : list Effect :=
  match f with
  | Hours => setHours v
  | Minutes => setMinutes v
  | Seconds => setSeconds v
  end.

(** What one call made by a cell does in the editor. *)
Definition perform (f : Field) (c : IntervalInput.Call) : list Effect :=
  match c with
  | IntervalInput.PreventDefault => []
  | IntervalInput.OnChange v => setField f v
  | IntervalInput.OnLeftFocus => leftFocus f
  | IntervalInput.OnRightFocus => rightFocus f
  end.

(** A key pressed in, and a text replacement of, the cell of field [f]; a
    cell that is not rendered receives no event. *)
Definition keyDown (f : Field) (key : string) : list Effect :=
  if rendered f
  then flat_map (perform f) (IntervalInput.handleKeyDown (inputProps f) key)
  else [].

Definition textChange (f : Field) (text : string) : list Effect :=
  if rendered f
  then flat_map (perform f) (IntervalInput.handleChange (inputProps f) text)
  else [].

End Component.

(** The durations a trace passes to [setInterval]. *)
Fixpoint emitted (trace : list Effect) : list Duration :=
  match trace with
  | SetInterval d :: rest => d :: emitted rest
  | _ :: rest => emitted rest
  | [] => []
  end.

(** The keys a trace passes to [onPresetChange]. *)
Fixpoint presetKeys (trace : list Effect) : list string :=
  match trace with
  | OnPresetChange v :: rest => v :: presetKeys rest
  | _ :: rest => presetKeys rest
  | [] => []
  end.

Definition focusMoves (trace : list Effect) : list Field :=
  flat_map (fun e => match e with Focus f => [f] | _ => [] end) trace.

(** The object spread [{ ...d, f: v }]. *)
Definition withField (f : Field) (v : Z) (d : Duration) : Duration :=
  match f with
  | Hours => {| hours := v; minutes := minutes d; seconds := seconds d |}
  | Minutes => {| hours := hours d; minutes := v; seconds := seconds d |}
  | Seconds => {| hours := hours d; minutes := minutes d; seconds := v |}
  end.

(** ** Concrete cells and editors *)

(** A minutes cell showing 05 with a neighbour to the right but no handler
    to reach it, and the same cell with the handler. *)
Definition cellWithoutRightHandler : IntervalInput.Props :=
  IntervalInput.mkProps 5 0 59 false false false.

Definition cellWithRightHandler : IntervalInput.Props :=
  IntervalInput.mkProps 5 0 59 true true false.

(** A cell showing 05 whose range is 0..5. *)
Definition cellUpToFive : IntervalInput.Props :=
  IntervalInput.mkProps 5 0 5 true true false.

(** A cell whose value 70 is above its range 0..59. *)
Definition cellAboveRange : IntervalInput.Props :=
  IntervalInput.mkProps 70 0 59 true true false.

(** The demo application's editor, holding 1:30:00. *)
Definition demoPresets : list IntervalPreset.t :=
  [ IntervalPreset.mkPreset "1" "1" "1 Hour" (Some (mkDuration 1 0 0));
    IntervalPreset.mkPreset "2" "2" "6 Hours" (Some (mkDuration 6 0 0));
    IntervalPreset.mkPreset "3" "3" "12 Hours" (Some (mkDuration 12 0 0));
    IntervalPreset.mkPreset "4" "4" "1 Day" (Some (mkDuration 24 0 0));
    IntervalPreset.mkPreset "custom" "custom" "Custom" None ].

Definition demoProps : Props.t :=
  {| Props.interval := mkDuration 1 30 0;
     Props.minInterval := Some (mkDuration 0 5 0);
     Props.maxInterval := Some (mkDuration 24 0 0);
     Props.showHours := None;
     Props.showMinutes := None;
     Props.showSeconds := None;
     Props.presets := Some demoPresets;
     Props.selectedPreset := Some "1"%string;
     Props.onPresetChange := true |}.

(** The demo's bounds with the minutes cell hidden, one hour held. *)
Definition hiddenMinutesProps : Props.t :=
  {| Props.interval := mkDuration 1 0 0;
     Props.minInterval := Some (mkDuration 0 5 0);
     Props.maxInterval := Some (mkDuration 24 0 0);
     Props.showHours := None;
     Props.showMinutes := Some false;
     Props.showSeconds := None;
     Props.presets := None;
     Props.selectedPreset := None;
     Props.onPresetChange := false |}.

(** Seconds hidden while the held duration has 15 seconds. *)
Definition hiddenSecondsProps : Props.t :=
  {| Props.interval := mkDuration 1 30 15;
     Props.minInterval := None;
     Props.maxInterval := None;
     Props.showHours := None;
     Props.showMinutes := None;
     Props.showSeconds := Some false;
     Props.presets := None;
     Props.selectedPreset := None;
     Props.onPresetChange := false |}.

(** The demo's bounds while the application holds two minutes, which is
    below the minimum. *)
Definition belowMinimumProps : Props.t :=
  {| Props.interval := mkDuration 0 2 0;
     Props.minInterval := Some (mkDuration 0 5 0);
     Props.maxInterval := Some (mkDuration 24 0 0);
     Props.showHours := None;
     Props.showMinutes := None;
     Props.showSeconds := None;
     Props.presets := None;
     Props.selectedPreset := None;
     Props.onPresetChange := false |}.

(** Total order of durations by elapsed time. *)
Definition withinBounds (d lo hi : Duration) : Prop :=
  durationToMs lo <= durationToMs d <= durationToMs hi.

(** Minutes and seconds in their sub-range, hours free. *)
Definition subMinute (d : Duration) : Prop :=
  0 <= minutes d <= 59 /\ 0 <= seconds d <= 59.


(** The cell re-rendered with a new [value] prop. *)
Definition setValue (p : IntervalInput.Props) (v : Z) : IntervalInput.Props :=
  {| IntervalInput.value := v;
     IntervalInput.min := IntervalInput.min p;
     IntervalInput.max := IntervalInput.max p;
     IntervalInput.onLeftFocus := IntervalInput.onLeftFocus p;
     IntervalInput.onRightFocus := IntervalInput.onRightFocus p;
     IntervalInput.isLastField := IntervalInput.isLastField p |}.

(** The fields to the right of a field, in the order of the cells. *)
Definition fieldsAfter (f : Field) : list Field :=
  match f with
  | Hours => [Minutes; Seconds]
  | Minutes => [Seconds]
  | Seconds => []
  end.

Definition adjacent (f g : Field) : bool :=
  match f, g with
  | Hours, Minutes | Minutes, Hours | Minutes, Seconds | Seconds, Minutes =>
      true
  | _, _ => false
  end.

Definition isConsoleError (e : Effect) : bool :=
  match e with
  | ConsoleError _ => true
  | _ => false
  end.

(** ** The owning application

    [App] keeps the duration and the selected preset in two [useState]
    cells and passes the two setters as [setInterval] and [onPresetChange];
    everything else it passes is constant. *)

Inductive UserEvent : Type :=
| KeyDown (f : Field) (key : string)
| TextChange (f : Field) (text : string)
| SelectPreset (key : string).

(** The handler the editor runs on an event. *)
Definition handle (props : Props.t) (ev : UserEvent) : list Effect :=
  match ev with
  | KeyDown f key => keyDown props f key
  | TextChange f text => textChange props f text
  | SelectPreset key => handlePresetChange props key
  end.

(** What the two setters do to the props of the next render. *)
Definition store (props : Props.t) (e : Effect) : Props.t :=
  match e with
  | SetInterval d =>
      {| Props.interval := d;
         Props.minInterval := Props.minInterval props;
         Props.maxInterval := Props.maxInterval props;
         Props.showHours := Props.showHours props;
         Props.showMinutes := Props.showMinutes props;
         Props.showSeconds := Props.showSeconds props;
         Props.presets := Props.presets props;
         Props.selectedPreset := Props.selectedPreset props;
         Props.onPresetChange := Props.onPresetChange props |}
  | OnPresetChange v =>
      {| Props.interval := Props.interval props;
         Props.minInterval := Props.minInterval props;
         Props.maxInterval := Props.maxInterval props;
         Props.showHours := Props.showHours props;
         Props.showMinutes := Props.showMinutes props;
         Props.showSeconds := Props.showSeconds props;
         Props.presets := Props.presets props;
         Props.selectedPreset := Some v;
         Props.onPresetChange := Props.onPresetChange props |}
  | ConsoleError _ | Focus _ => props
  end.

(** One event: the handler runs on the current props, the setters it calls
    are applied in order, and the editor is rendered again. *)
Definition dispatch (props : Props.t) (ev : UserEvent) : Props.t :=
  fold_left store (handle props ev) props.

Definition runEvents (props : Props.t) (evs : list UserEvent) : Props.t :=
  fold_left dispatch evs props.

(** The state the editor is meant to be in: bounds of the schema's shape in
    the right order, and a held duration of that shape between them. *)
Definition goodState (props : Props.t) : Prop :=
  validShape (minInterval props)
  /\ validShape (maxInterval props)
  /\ validShape (interval props)
  /\ withinBounds (interval props) (minInterval props) (maxInterval props).

(** * Properties *)

(** ** The schema *)

Lemma durationSchema_issues_nil (d : Duration) :
  durationSchema_issues d = [] <-> validShape d.
Proof.
  unfold durationSchema_issues, validShape, Zod.checkMin, Zod.checkMax.
  destruct d as [h m s]; cbn [hours minutes seconds].
  destruct (Z.ltb_spec h 0), (Z.ltb_spec m 0), (Z.gtb_spec m 59),
    (Z.ltb_spec s 0), (Z.gtb_spec s 59); cbn;
    split; intros Hc; try discriminate Hc; try reflexivity; lia.
Qed.

Lemma durationSchema_parse_ok (d : Duration) :
  validShape d -> durationSchema_parse d = inr d.
Proof.
  intros H. unfold durationSchema_parse.
  apply durationSchema_issues_nil in H. now rewrite H.
Qed.

Lemma durationSchema_parse_error (d : Duration) :
  ~ validShape d ->
  durationSchema_parse d = inl (durationSchema_issues d)
  /\ durationSchema_issues d <> [].
Proof.
  intros H. unfold durationSchema_parse.
  destruct (durationSchema_issues d) as [|i l] eqn:E.
  - exfalso. apply H. now apply durationSchema_issues_nil.
  - split; [reflexivity | discriminate].
Qed.

Lemma validShape_dec (d : Duration) : {validShape d} + {~ validShape d}.
Proof.
  unfold validShape.
  destruct (Z_le_dec 0 (hours d)), (Z_le_dec 0 (minutes d)),
    (Z_le_dec (minutes d) 59), (Z_le_dec 0 (seconds d)),
    (Z_le_dec (seconds d) 59); (left; lia) || (right; lia).
Defined.

(** ** The clamp *)

Lemma getNextValidDuration_cases (d lo hi : Duration) :
  (durationToMs d < durationToMs lo /\ getNextValidDuration d lo hi = lo)
  \/ (durationToMs lo <= durationToMs d /\ durationToMs hi < durationToMs d
      /\ getNextValidDuration d lo hi = hi)
  \/ (durationToMs lo <= durationToMs d <= durationToMs hi
      /\ getNextValidDuration d lo hi = d).
Proof.
  unfold getNextValidDuration.
  destruct (Z.ltb_spec (durationToMs d) (durationToMs lo)).
  - left. auto.
  - destruct (Z.gtb_spec (durationToMs d) (durationToMs hi)).
    + right; left. repeat split; auto; lia.
    + right; right. repeat split; auto; lia.
Qed.

Lemma getNextValidDuration_within (d lo hi : Duration) :
  durationToMs lo <= durationToMs hi ->
  withinBounds (getNextValidDuration d lo hi) lo hi.
Proof.
  intros Hb. unfold withinBounds.
  destruct (getNextValidDuration_cases d lo hi)
    as [[_ ->] | [(_ & _ & ->) | [? ->]]]; lia.
Qed.

(** C1 (as stated, refuted).  With the bounds the wrong way round a duration
    above the maximum is not sent to the maximum, and a duration whose total
    equals the maximum's is not returned unchanged: the test against the
    minimum comes first. *)
Lemma clamp_inverted_bounds_counterexample :
  (durationToMs (mkDuration 0 30 0) > durationToMs (mkDuration 0 0 0)
   /\ getNextValidDuration
        (mkDuration 0 30 0) (mkDuration 1 0 0) (mkDuration 0 0 0)
      <> mkDuration 0 0 0)
  /\ (durationToMs (mkDuration 0 0 0) = durationToMs (mkDuration 0 0 0)
      /\ getNextValidDuration
           (mkDuration 0 0 0) (mkDuration 1 0 0) (mkDuration 0 0 0)
         <> mkDuration 0 0 0).
Proof.
  repeat split; try reflexivity; cbv; discriminate.
Qed.

(** C1 (amended).  [getNextValidDuration] returns the whole [minInterval]
    when the total of the duration is strictly below that of the minimum;
    when it is not below, it returns the whole [maxInterval] if the total is
    strictly above that of the maximum, and the duration itself otherwise.
    When the bounds are ordered, a duration whose total equals that of
    either bound is returned unchanged. *)
Theorem getNextValidDuration_spec (d lo hi : Duration) :
  (durationToMs d < durationToMs lo -> getNextValidDuration d lo hi = lo)
  /\ (durationToMs lo <= durationToMs d -> durationToMs d > durationToMs hi ->
      getNextValidDuration d lo hi = hi)
  /\ (durationToMs lo <= durationToMs d <= durationToMs hi ->
      getNextValidDuration d lo hi = d)
  /\ (durationToMs lo <= durationToMs hi ->
      durationToMs d = durationToMs lo \/ durationToMs d = durationToMs hi ->
      getNextValidDuration d lo hi = d).
Proof.
  destruct (getNextValidDuration_cases d lo hi)
    as [[H ->] | [(H1 & H2 & ->) | [H ->]]];
    repeat split; intros; try reflexivity; lia.
Qed.

Lemma getNextValidDuration_spec_witness :
  getNextValidDuration (mkDuration 0 2 0) (mkDuration 0 5 0) (mkDuration 24 0 0)
  = mkDuration 0 5 0
  /\ getNextValidDuration
       (mkDuration 24 0 1) (mkDuration 0 5 0) (mkDuration 24 0 0)
     = mkDuration 24 0 0
  /\ getNextValidDuration
       (mkDuration 6 0 0) (mkDuration 0 5 0) (mkDuration 24 0 0)
     = mkDuration 6 0 0
  /\ getNextValidDuration
       (mkDuration 23 60 0) (mkDuration 0 5 0) (mkDuration 24 0 0)
     = mkDuration 23 60 0.
Proof.
  split; [| split; [| split]].
  - apply (proj1 (getNextValidDuration_spec
             (mkDuration 0 2 0) (mkDuration 0 5 0) (mkDuration 24 0 0))).
    cbv. reflexivity.
  - apply (proj1 (proj2 (getNextValidDuration_spec
             (mkDuration 24 0 1) (mkDuration 0 5 0) (mkDuration 24 0 0)))).
    + cbv. discriminate.
    + cbv. reflexivity.
  - apply (proj1 (proj2 (proj2 (getNextValidDuration_spec
             (mkDuration 6 0 0) (mkDuration 0 5 0) (mkDuration 24 0 0))))).
    cbv. split; discriminate.
  - apply (proj2 (proj2 (proj2 (getNextValidDuration_spec
             (mkDuration 23 60 0) (mkDuration 0 5 0) (mkDuration 24 0 0))))).
    + cbv. discriminate.
    + right. cbv. reflexivity.
Defined.

(** ** Cascading bounds of a field *)

(** C2.  The largest value a field may take: the maximum's hours for the
    hours field whatever the other fields hold; for minutes the maximum's
    minutes when the current hours are the maximum's hours, else 59; for
    seconds the maximum's seconds when both the current hours and minutes
    are the maximum's, else 59. *)
Theorem getMaxValueForField_spec (currentDuration maxI : Duration) :
  getMaxValueForField Hours currentDuration maxI = hours maxI
  /\ (hours currentDuration = hours maxI ->
      getMaxValueForField Minutes currentDuration maxI = minutes maxI)
  /\ (hours currentDuration <> hours maxI ->
      getMaxValueForField Minutes currentDuration maxI = 59)
  /\ (hours currentDuration = hours maxI
      /\ minutes currentDuration = minutes maxI ->
      getMaxValueForField Seconds currentDuration maxI = seconds maxI)
  /\ (~ (hours currentDuration = hours maxI
         /\ minutes currentDuration = minutes maxI) ->
      getMaxValueForField Seconds currentDuration maxI = 59).
Proof.
  unfold getMaxValueForField; cbn [Field_eqb andb].
  destruct (Z.eqb_spec (hours currentDuration) (hours maxI)) as [Hh | Hh],
    (Z.eqb_spec (minutes currentDuration) (minutes maxI)) as [Hm | Hm];
    repeat split; intros; try reflexivity; tauto.
Qed.

Lemma getMaxValueForField_spec_witness :
  getMaxValueForField Minutes (mkDuration 24 0 0) (mkDuration 24 0 0) = 0
  /\ getMaxValueForField Minutes (mkDuration 23 0 0) (mkDuration 24 0 0) = 59
  /\ getMaxValueForField Seconds (mkDuration 24 30 0) (mkDuration 24 30 15)
     = 15
  /\ getMaxValueForField Seconds (mkDuration 24 29 0) (mkDuration 24 30 15)
     = 59.
Proof.
  split; [| split; [| split]].
  - apply (proj1 (proj2 (getMaxValueForField_spec
             (mkDuration 24 0 0) (mkDuration 24 0 0)))).
    reflexivity.
  - apply (proj1 (proj2 (proj2 (getMaxValueForField_spec
             (mkDuration 23 0 0) (mkDuration 24 0 0))))).
    cbn. discriminate.
  - apply (proj1 (proj2 (proj2 (proj2 (getMaxValueForField_spec
             (mkDuration 24 30 0) (mkDuration 24 30 15)))))).
    split; reflexivity.
  - apply (proj2 (proj2 (proj2 (proj2 (getMaxValueForField_spec
             (mkDuration 24 29 0) (mkDuration 24 30 15)))))).
    cbn. intros [_ H]. discriminate H.
Defined.

(** C3.  The smallest value a field may take mirrors the largest, with 0 as
    the floor: the minimum's hours for the hours field; for minutes the
    minimum's minutes when the current hours are the minimum's hours, else
    0; for seconds the minimum's seconds when both the current hours and
    minutes are the minimum's, else 0. *)
Theorem getMinValueForField_spec (currentDuration minI : Duration) :
  getMinValueForField Hours currentDuration minI = hours minI
  /\ (hours currentDuration = hours minI ->
      getMinValueForField Minutes currentDuration minI = minutes minI)
  /\ (hours currentDuration <> hours minI ->
      getMinValueForField Minutes currentDuration minI = 0)
  /\ (hours currentDuration = hours minI
      /\ minutes currentDuration = minutes minI ->
      getMinValueForField Seconds currentDuration minI = seconds minI)
  /\ (~ (hours currentDuration = hours minI
         /\ minutes currentDuration = minutes minI) ->
      getMinValueForField Seconds currentDuration minI = 0).
Proof.
  unfold getMinValueForField; cbn [Field_eqb andb].
  destruct (Z.eqb_spec (hours currentDuration) (hours minI)) as [Hh | Hh],
    (Z.eqb_spec (minutes currentDuration) (minutes minI)) as [Hm | Hm];
    repeat split; intros; try reflexivity; tauto.
Qed.

Lemma getMinValueForField_spec_witness :
  getMinValueForField Minutes (mkDuration 0 30 0) (mkDuration 0 5 0) = 5
  /\ getMinValueForField Minutes (mkDuration 1 30 0) (mkDuration 0 5 0) = 0
  /\ getMinValueForField Seconds (mkDuration 0 5 40) (mkDuration 0 5 20) = 20
  /\ getMinValueForField Seconds (mkDuration 0 6 40) (mkDuration 0 5 20) = 0.
Proof.
  split; [| split; [| split]].
  - apply (proj1 (proj2 (getMinValueForField_spec
             (mkDuration 0 30 0) (mkDuration 0 5 0)))).
    reflexivity.
  - apply (proj1 (proj2 (proj2 (getMinValueForField_spec
             (mkDuration 1 30 0) (mkDuration 0 5 0))))).
    cbn. discriminate.
  - apply (proj1 (proj2 (proj2 (proj2 (getMinValueForField_spec
             (mkDuration 0 5 40) (mkDuration 0 5 20)))))).
    split; reflexivity.
  - apply (proj2 (proj2 (proj2 (proj2 (getMinValueForField_spec
             (mkDuration 0 6 40) (mkDuration 0 5 20)))))).
    cbn. intros [_ H]. discriminate H.
Defined.

(** ** Composing, validating and clamping an update *)

Section HandleIntervalChange.

Variable props : Props.t.

Lemma handleIntervalChange_valid (newInterval : Duration) :
  validShape (adjustedInterval props newInterval) ->
  handleIntervalChange props newInterval
  = [SetInterval
       (getNextValidDuration (adjustedInterval props newInterval)
          (minInterval props) (maxInterval props))].
Proof.
  intros H. unfold handleIntervalChange.
  now rewrite (durationSchema_parse_ok _ H).
Qed.

Lemma handleIntervalChange_invalid (newInterval : Duration) :
  ~ validShape (adjustedInterval props newInterval) ->
  handleIntervalChange props newInterval
  = [ConsoleError (durationSchema_issues (adjustedInterval props newInterval));
     SetInterval (interval props)].
Proof.
  intros H. unfold handleIntervalChange.
  destruct (durationSchema_parse_error _ H) as [-> _]. reflexivity.
Qed.

Lemma adjustedInterval_hidden (newInterval : Duration) (f : Field) :
  shown props f = false ->
  getField f (adjustedInterval props newInterval) = 0.
Proof.
  destruct f; cbn; intros ->; reflexivity.
Qed.

Lemma adjustedInterval_all_shown (newInterval : Duration) :
  showHours props = true -> showMinutes props = true ->
  showSeconds props = true ->
  adjustedInterval props newInterval = newInterval.
Proof.
  intros H1 H2 H3. unfold adjustedInterval. rewrite H1, H2, H3.
  now destruct newInterval.
Qed.

Lemma handleIntervalChange_emits_once (newInterval : Duration) :
  exists d, emitted (handleIntervalChange props newInterval) = [d].
Proof.
  destruct (validShape_dec (adjustedInterval props newInterval)) as [H | H].
  - rewrite (handleIntervalChange_valid _ H). cbn. eauto.
  - rewrite (handleIntervalChange_invalid _ H). cbn. eauto.
Qed.

Lemma handleIntervalChange_no_preset_call (newInterval : Duration) :
  presetKeys (handleIntervalChange props newInterval) = [].
Proof.
  destruct (validShape_dec (adjustedInterval props newInterval)) as [H | H].
  - now rewrite (handleIntervalChange_valid _ H).
  - now rewrite (handleIntervalChange_invalid _ H).
Qed.

End HandleIntervalChange.

Lemma emitted_app (t1 t2 : list Effect) :
  emitted (t1 ++ t2) = emitted t1 ++ emitted t2.
Proof.
  induction t1 as [|e t1 IH]; [reflexivity |].
  destruct e; cbn; now rewrite IH.
Qed.

Lemma presetKeys_app (t1 t2 : list Effect) :
  presetKeys (t1 ++ t2) = presetKeys t1 ++ presetKeys t2.
Proof.
  induction t1 as [|e t1 IH]; [reflexivity |].
  destruct e; cbn; now rewrite IH.
Qed.

Lemma setField_handleIntervalChange (props : Props.t) (f : Field) (v : Z) :
  setField props f v
  = handleIntervalChange props (withField f v (interval props)).
Proof. destruct f; reflexivity. Qed.

Lemma handleIntervalChange_valid_within (props : Props.t) (n : Duration) :
  durationToMs (minInterval props) <= durationToMs (maxInterval props) ->
  validShape (adjustedInterval props n) ->
  exists d, emitted (handleIntervalChange props n) = [d]
            /\ withinBounds d (minInterval props) (maxInterval props).
Proof.
  intros Hb Hv. rewrite (handleIntervalChange_valid _ _ Hv). cbn.
  eexists; split; [reflexivity |].
  now apply getNextValidDuration_within.
Qed.

Lemma handlePresetChange_with_duration
    (props : Props.t) (key : string) (p : IntervalPreset.t) (d : Duration) :
  findPreset (presets props) key = Some p ->
  IntervalPreset.duration p = Some d ->
  handlePresetChange props key
  = handleIntervalChange props d
    ++ (if Props.onPresetChange props then [OnPresetChange key] else []).
Proof.
  intros Hf Hd. unfold handlePresetChange. now rewrite Hf, Hd.
Qed.

Lemma emitted_callback (b : bool) (key : string) :
  emitted (if b then [OnPresetChange key] else []) = [].
Proof. now destruct b. Qed.

(** C4.  When the total of the minimum is at most that of the maximum, an
    update whose composed value passes the schema makes the editor emit
    exactly one duration, and it lies between the bounds by total
    milliseconds.  This holds for [handleIntervalChange] itself, for an edit
    of any one field, and for the selection of a preset that carries a
    duration. *)
Theorem emitted_within_bounds (props : Props.t) :
  durationToMs (minInterval props) <= durationToMs (maxInterval props) ->
  (forall newInterval,
      validShape (adjustedInterval props newInterval) ->
      exists d, emitted (handleIntervalChange props newInterval) = [d]
                /\ withinBounds d (minInterval props) (maxInterval props))
  /\ (forall f v,
         validShape
           (adjustedInterval props (withField f v (interval props))) ->
         exists d, emitted (setField props f v) = [d]
                   /\ withinBounds d (minInterval props) (maxInterval props))
  /\ (forall key p d0,
         findPreset (presets props) key = Some p ->
         IntervalPreset.duration p = Some d0 ->
         validShape (adjustedInterval props d0) ->
         exists d, emitted (handlePresetChange props key) = [d]
                   /\ withinBounds d (minInterval props) (maxInterval props)).
Proof.
  intros Hb. split; [| split].
  - intros n Hv. now apply handleIntervalChange_valid_within.
  - intros f v Hv. rewrite setField_handleIntervalChange.
    now apply handleIntervalChange_valid_within.
  - intros key p d0 Hf Hd Hv.
    rewrite (handlePresetChange_with_duration _ _ _ _ Hf Hd).
    rewrite emitted_app, emitted_callback, app_nil_r.
    now apply handleIntervalChange_valid_within.
Qed.

(** ** Hidden fields *)

(** C7 (as stated, refuted).  With minutes hidden and a minimum of five
    minutes, Down-arrow in the hours cell at one hour composes 0:00:00, which
    is below the minimum, and the editor emits the minimum itself, minutes
    included.  With seconds hidden, an update that fails the schema makes
    the editor emit the held duration again, seconds included. *)
Lemma hidden_field_nonzero_counterexample :
  (shown hiddenMinutesProps Minutes = false
   /\ emitted (keyDown hiddenMinutesProps Hours "ArrowDown")
      = [mkDuration 0 5 0])
  /\ (shown hiddenSecondsProps Seconds = false
      /\ emitted (handleIntervalChange hiddenSecondsProps (mkDuration (-1) 0 0))
         = [mkDuration 1 30 15]).
Proof.
  repeat split; vm_compute; reflexivity.
Qed.

(** C7 (amended).  When a field is hidden the update is composed with 0 in
    that field, whatever the candidate and the held duration have there.
    For an update that passes the schema the one emitted duration is the
    composed update, the minimum or the maximum; so it has 0 in the hidden
    field whenever the composed update lies within the bounds, and whenever
    both bounds have 0 in that field. *)
Theorem hidden_field_zero (props : Props.t) (f : Field) (n : Duration) :
  shown props f = false ->
  getField f (adjustedInterval props n) = 0
  /\ (validShape (adjustedInterval props n) ->
      exists d,
        emitted (handleIntervalChange props n) = [d]
        /\ (d = adjustedInterval props n
            \/ d = minInterval props \/ d = maxInterval props)
        /\ (withinBounds (adjustedInterval props n)
              (minInterval props) (maxInterval props) ->
            getField f d = 0)
        /\ (getField f (minInterval props) = 0 ->
            getField f (maxInterval props) = 0 ->
            getField f d = 0)).
Proof.
  intros Hs. pose proof (adjustedInterval_hidden props n f Hs) as H0.
  split; [exact H0 |]. intros Hv.
  rewrite (handleIntervalChange_valid _ _ Hv). cbn.
  eexists; split; [reflexivity |].
  unfold withinBounds.
  destruct (getNextValidDuration_cases (adjustedInterval props n)
              (minInterval props) (maxInterval props))
    as [[H ->] | [(H1 & H2 & ->) | [H ->]]].
  - split; [auto |]. split; [lia | auto].
  - split; [auto |]. split; [lia | auto].
  - split; [auto |]. split; auto.
Qed.

Lemma hidden_field_zero_witness :
  getField Seconds (adjustedInterval hiddenSecondsProps (mkDuration 2 30 15))
  = 0
  /\ exists d,
       emitted (handleIntervalChange hiddenSecondsProps (mkDuration 2 30 15))
       = [d]
       /\ getField Seconds d = 0.
Proof.
  assert (Hs : shown hiddenSecondsProps Seconds = false) by reflexivity.
  assert (Hv : validShape
                 (adjustedInterval hiddenSecondsProps (mkDuration 2 30 15)))
    by (cbv; intuition discriminate).
  pose proof (hidden_field_zero hiddenSecondsProps Seconds
                (mkDuration 2 30 15) Hs) as [H0 H].
  split; [exact H0 |].
  destruct (H Hv) as (d & He & _ & Hin & _).
  exists d. split; [exact He |].
  apply Hin. cbv. intuition discriminate.
Defined.

(** ** Rejected updates *)

(** C8 (as stated, refuted).  The schema sees the update after the hidden
    fields were set to 0, not the candidate.  With seconds hidden, a
    candidate with 75 seconds fails the shape but is not discarded, and a
    candidate that passes is not emitted as its own clamp but with its
    seconds dropped. *)
Lemma schema_on_candidate_counterexample :
  (~ validShape (mkDuration 2 0 75)
   /\ emitted (handleIntervalChange hiddenSecondsProps (mkDuration 2 0 75))
      = [mkDuration 2 0 0]
   /\ interval hiddenSecondsProps = mkDuration 1 30 15)
  /\ (validShape (withField Hours 2 (interval hiddenSecondsProps))
      /\ getNextValidDuration
           (withField Hours 2 (interval hiddenSecondsProps))
           (minInterval hiddenSecondsProps) (maxInterval hiddenSecondsProps)
         = mkDuration 2 30 15
      /\ emitted (setField hiddenSecondsProps Hours 2) = [mkDuration 2 30 0]).
Proof.
  repeat split; try (vm_compute; reflexivity);
    try (cbv; intuition discriminate).
Qed.

(** C8 (amended).  The update the handler validates is the candidate with
    its hidden fields set to 0, which is the candidate itself when all three
    fields are shown.  If that update fails the shape schema (hours
    negative, or minutes or seconds outside 0..59) it is discarded: the
    handler reports the issues on the console and emits the held duration
    unchanged, and nothing is thrown to the caller.  If it passes, the
    handler emits that update clamped to the bounds, and nothing else. *)
Theorem handleIntervalChange_schema (props : Props.t) (n : Duration) :
  (~ validShape (adjustedInterval props n) ->
   handleIntervalChange props n
   = [ConsoleError (durationSchema_issues (adjustedInterval props n));
      SetInterval (interval props)]
   /\ durationSchema_issues (adjustedInterval props n) <> []
   /\ emitted (handleIntervalChange props n) = [interval props])
  /\ (validShape (adjustedInterval props n) ->
      handleIntervalChange props n
      = [SetInterval
           (getNextValidDuration (adjustedInterval props n)
              (minInterval props) (maxInterval props))])
  /\ (showHours props = true -> showMinutes props = true ->
      showSeconds props = true -> adjustedInterval props n = n).
Proof.
  split; [| split].
  - intros H. rewrite (handleIntervalChange_invalid _ _ H).
    split; [reflexivity |]. split; [| reflexivity].
    now destruct (durationSchema_parse_error _ H).
  - apply handleIntervalChange_valid.
  - apply adjustedInterval_all_shown.
Qed.

Lemma handleIntervalChange_schema_witness :
  emitted (handleIntervalChange demoProps (mkDuration 1 (-1) 0))
  = [mkDuration 1 30 0]
  /\ handleIntervalChange demoProps (mkDuration 25 0 0)
     = [SetInterval (mkDuration 24 0 0)]
  /\ adjustedInterval demoProps (mkDuration 1 (-1) 0) = mkDuration 1 (-1) 0.
Proof.
  split; [| split].
  - apply (proj1 (handleIntervalChange_schema demoProps (mkDuration 1 (-1) 0))).
    cbv. intuition discriminate.
  - apply (proj1 (proj2
             (handleIntervalChange_schema demoProps (mkDuration 25 0 0)))).
    cbv. intuition discriminate.
  - apply (proj2 (proj2
             (handleIntervalChange_schema demoProps (mkDuration 1 (-1) 0))));
      reflexivity.
Defined.

Lemma emitted_within_bounds_witness :
  (exists d, emitted (handleIntervalChange demoProps (mkDuration 25 0 0)) = [d]
             /\ withinBounds d (minInterval demoProps) (maxInterval demoProps))
  /\ (exists d, emitted (setField demoProps Minutes 2) = [d]
                /\ withinBounds d (minInterval demoProps)
                     (maxInterval demoProps))
  /\ (exists d, emitted (handlePresetChange demoProps "2") = [d]
                /\ withinBounds d (minInterval demoProps)
                     (maxInterval demoProps)).
Proof.
  assert (Hb : durationToMs (minInterval demoProps)
               <= durationToMs (maxInterval demoProps))
    by (cbv; discriminate).
  destruct (emitted_within_bounds demoProps Hb) as (H1 & H2 & H3).
  split; [| split].
  - apply H1. cbv. intuition discriminate.
  - apply H2. cbv. intuition discriminate.
  - apply (H3 "2"%string
             (IntervalPreset.mkPreset "2" "2" "6 Hours"
                (Some (mkDuration 6 0 0)))
             (mkDuration 6 0 0)); try reflexivity.
    cbv. intuition discriminate.
Defined.

(** ** Preset selection *)

Lemma findPreset_some (l : list IntervalPreset.t) (key : string)
    (p : IntervalPreset.t) :
  findPreset l key = Some p -> In p l /\ IntervalPreset.value p = key.
Proof.
  intros H. apply find_some in H. destruct H as [Hin Heq].
  split; [exact Hin |]. now apply String.eqb_eq.
Qed.

Lemma findPreset_first (l : list IntervalPreset.t) (key : string)
    (p : IntervalPreset.t) :
  findPreset l key = Some p ->
  exists before after,
    l = before ++ p :: after
    /\ forall q, In q before -> IntervalPreset.value q <> key.
Proof.
  induction l as [|q l IH]; [discriminate |].
  cbn. destruct (String.eqb_spec (IntervalPreset.value q) key) as [He | Hn].
  - intros [= ->]. exists [], l. split; [reflexivity |]. intros ? [].
  - intros H. destruct (IH H) as (b & a & -> & Hb).
    exists (q :: b), a. split; [reflexivity |].
    intros r [<- | Hr]; auto.
Qed.

Lemma handlePresetChange_without_duration (props : Props.t) (key : string) :
  (findPreset (presets props) key = None
   \/ exists p, findPreset (presets props) key = Some p
                /\ IntervalPreset.duration p = None) ->
  handlePresetChange props key
  = if Props.onPresetChange props then [OnPresetChange key] else [].
Proof.
  unfold handlePresetChange.
  intros [-> | (p & -> & ->)]; reflexivity.
Qed.

Lemma handlePresetChange_presetKeys (props : Props.t) (key : string) :
  presetKeys (handlePresetChange props key)
  = if Props.onPresetChange props then [key] else [].
Proof.
  unfold handlePresetChange. rewrite presetKeys_app.
  assert (presetKeys
            match findPreset (presets props) key with
            | Some p =>
                match IntervalPreset.duration p with
                | Some d => handleIntervalChange props d
                | None => []
                end
            | None => []
            end = []) as ->.
  { destruct (findPreset (presets props) key) as [p |]; [| reflexivity].
    destruct (IntervalPreset.duration p); [| reflexivity].
    apply handleIntervalChange_no_preset_call. }
  now destruct (Props.onPresetChange props).
Qed.

(** C9.  Selecting a preset key looks the preset up by its [value] (the
    first preset of the list with that value).  If the preset found carries
    a duration, the duration goes through [handleIntervalChange], the path
    of a manual field edit, which emits exactly one duration.  When the
    parent gave an [onPresetChange], it is called once with the selected key
    on every selection, with or without a duration.  Selecting a preset
    without a duration, or a key no preset has, emits no duration: the only
    call is the one of [onPresetChange]. *)
Theorem handlePresetChange_spec (props : Props.t) (key : string) :
  (forall p, findPreset (presets props) key = Some p ->
             IntervalPreset.value p = key
             /\ exists before after,
                 presets props = before ++ p :: after
                 /\ forall q, In q before -> IntervalPreset.value q <> key)
  /\ (forall p d,
         findPreset (presets props) key = Some p ->
         IntervalPreset.duration p = Some d ->
         handlePresetChange props key
         = handleIntervalChange props d
           ++ (if Props.onPresetChange props then [OnPresetChange key] else [])
         /\ exists e, emitted (handlePresetChange props key) = [e])
  /\ (forall f v,
         setField props f v
         = handleIntervalChange props (withField f v (interval props)))
  /\ (Props.onPresetChange props = true ->
      presetKeys (handlePresetChange props key) = [key])
  /\ ((findPreset (presets props) key = None
       \/ exists p, findPreset (presets props) key = Some p
                    /\ IntervalPreset.duration p = None) ->
      emitted (handlePresetChange props key) = []
      /\ handlePresetChange props key
         = if Props.onPresetChange props then [OnPresetChange key] else []).
Proof.
  split; [| split; [| split; [| split]]].
  - intros p Hf. split; [apply (findPreset_some _ _ _ Hf) |].
    now apply findPreset_first.
  - intros p d Hf Hd.
    rewrite (handlePresetChange_with_duration _ _ _ _ Hf Hd).
    split; [reflexivity |].
    rewrite emitted_app, emitted_callback, app_nil_r.
    apply handleIntervalChange_emits_once.
  - apply setField_handleIntervalChange.
  - intros Hcb. rewrite handlePresetChange_presetKeys. now rewrite Hcb.
  - intros H. rewrite (handlePresetChange_without_duration _ _ H).
    split; [apply emitted_callback | reflexivity].
Qed.

Lemma handlePresetChange_spec_witness :
  handlePresetChange demoProps "2"
  = [SetInterval (mkDuration 6 0 0); OnPresetChange "2"]
  /\ presetKeys (handlePresetChange demoProps "custom") = ["custom"%string]
  /\ emitted (handlePresetChange demoProps "custom") = [].
Proof.
  destruct (handlePresetChange_spec demoProps "2") as (_ & H2 & _).
  destruct (handlePresetChange_spec demoProps "custom")
    as (_ & _ & _ & H3 & H4).
  split; [| split].
  - destruct (H2 (IntervalPreset.mkPreset "2" "2" "6 Hours"
                    (Some (mkDuration 6 0 0))) (mkDuration 6 0 0)
                eq_refl eq_refl) as (-> & _).
    reflexivity.
  - apply H3. reflexivity.
  - apply H4. right.
    exists (IntervalPreset.mkPreset "custom" "custom" "Custom" None).
    split; reflexivity.
Defined.

(** ** Strings of digits *)

Lemma isDigit_plain (c : ascii) :
  Js.isDigit c = true ->
  Js.isWhiteSpace c = false /\ c <> "-"%char /\ c <> "+"%char
  /\ 0 <= Js.digitValue c <= 9.
Proof.
  destruct c as [[] [] [] [] [] [] [] []]; cbv; intros H;
    try discriminate H; repeat split; discriminate.
Qed.

Lemma parseInt_digits (c : ascii) (rest : string) :
  Js.isDigit c = true ->
  Js.parseInt (String c rest) = Some (Js.digitsValue 0 (String c rest)).
Proof.
  intros Hc. destruct (isDigit_plain c Hc) as (Hw & Hm & Hp & _).
  unfold Js.parseInt. cbn [Js.trimStart]. rewrite Hw.
  assert (Hb : (let '(sign, body) :=
                  match String c rest with
                  | String "-"%char r => (-1, r)
                  | String "+"%char r => (1, r)
                  | _ => (1, String c rest)
                  end in
                if Js.startsWithDigit body
                then Some (sign * Js.digitsValue 0 body) else None)
               = Some (Js.digitsValue 0 (String c rest))).
  { destruct c as [[] [] [] [] [] [] [] []];
      try discriminate Hc; try congruence;
      cbn [Js.startsWithDigit]; rewrite ?Hc;
      now rewrite Z.mul_1_l. }
  exact Hb.
Qed.

Lemma allDigits_app (s t : string) :
  Js.allDigits (s ++ t) = Js.allDigits s && Js.allDigits t.
Proof.
  induction s as [|c s IH]; [reflexivity |].
  cbn. rewrite IH. now rewrite andb_assoc.
Qed.

Lemma allDigits_string_of_uint (d : Decimal.uint) :
  Js.allDigits (NilEmpty.string_of_uint d) = true.
Proof.
  induction d; cbn [NilEmpty.string_of_uint Js.allDigits];
    rewrite ?IHd; reflexivity.
Qed.

Lemma string_of_uint_nonempty (d : Decimal.uint) :
  d <> Decimal.Nil -> NilEmpty.string_of_uint d <> EmptyString.
Proof.
  destruct d; cbn; intros H; congruence.
Qed.

(** The decimal representation of an integer: digits, after a minus sign
    when it is negative. *)
Lemma toString_shape (v : Z) :
  exists digits,
    Js.allDigits digits = true /\ digits <> EmptyString
    /\ Js.toString v = if v <? 0 then String "-" digits else digits.
Proof.
  unfold Js.toString. destruct v as [|q|q]; cbn [Z.to_int Z.ltb Z.compare].
  - exists "0"%string. repeat split. discriminate.
  - exists (NilEmpty.string_of_uint (Pos.to_uint q)).
    pose proof (DecimalPos.Unsigned.to_uint_nonnil q) as Hn.
    split; [apply allDigits_string_of_uint |].
    split; [now apply string_of_uint_nonempty |].
    cbn. destruct (Pos.to_uint q); [congruence | reflexivity ..].
  - exists (NilEmpty.string_of_uint (Pos.to_uint q)).
    pose proof (DecimalPos.Unsigned.to_uint_nonnil q) as Hn.
    split; [apply allDigits_string_of_uint |].
    split; [now apply string_of_uint_nonempty |].
    cbn. destruct (Pos.to_uint q); [congruence | reflexivity ..].
Qed.

Lemma allDigits_tail (c : ascii) (s : string) :
  Js.allDigits (String c s) = true -> Js.allDigits s = true.
Proof.
  cbn. now intros [_ H]%andb_true_iff.
Qed.

(** What is left of the padded representation without its first character
    is a string of digits: a minus sign can only be that first character. *)
Lemma slice_padStart_digits (v : Z) :
  Js.allDigits (Js.slice (Js.padStart (Js.toString v) 2 "0"%char) 1) = true.
Proof.
  destruct (toString_shape v) as (ds & Hd & Hne & ->).
  unfold Js.padStart.
  destruct (v <? 0).
  - destruct ds as [|c ds]; [congruence |]. cbn. exact Hd.
  - destruct ds as [|c [|c' ds]]; [congruence | |].
    + cbn. exact Hd.
    + cbn. now apply allDigits_tail in Hd.
Qed.

Lemma singleDigit_inv (key : string) :
  Js.isSingleDigit key = true ->
  exists c, key = String c EmptyString /\ Js.isDigit c = true.
Proof.
  destruct key as [|c [|c' k]]; cbn; try discriminate. eauto.
Qed.

Lemma allDigits_parseInt (s : string) :
  Js.allDigits s = true -> s <> EmptyString ->
  Js.parseInt s = Some (Js.digitsValue 0 s).
Proof.
  destruct s as [|c s]; [congruence |].
  cbn [Js.allDigits]. intros [Hc _]%andb_true_iff _.
  now apply parseInt_digits.
Qed.

Lemma rolledString_digits (v : Z) (key : string) :
  Js.isSingleDigit key = true ->
  Js.allDigits (IntervalInput.rolledString v key) = true
  /\ IntervalInput.rolledString v key <> EmptyString.
Proof.
  intros (c & -> & Hc)%singleDigit_inv. unfold IntervalInput.rolledString.
  split.
  - rewrite allDigits_app, slice_padStart_digits. cbn. now rewrite Hc.
  - destruct (Js.slice _ 1); discriminate.
Qed.

Lemma parseInt_key (key : string) :
  Js.isSingleDigit key = true ->
  exists d, Js.parseInt key = Some d /\ 0 <= d <= 9.
Proof.
  intros (c & -> & Hc)%singleDigit_inv.
  rewrite (parseInt_digits _ _ Hc). cbn. rewrite Hc.
  eexists; split; [reflexivity |].
  destruct (isDigit_plain c Hc) as (_ & _ & _ & H). lia.
Qed.

Lemma rolledString_formatNumber (v : Z) (key : string) :
  IntervalInput.rolledString v key
  = (Js.slice (formatNumber v) 1 ++ key)%string.
Proof. reflexivity. Qed.

(** ** Keys in a cell *)

Section Keys.

Import IntervalInput.

Variable p : IntervalInput.Props.

Lemma handleKeyDown_ArrowUp :
  handleKeyDown p "ArrowUp"
  = [PreventDefault;
     OnChange (if value p + 1 >? max p then min p else value p + 1)].
Proof. reflexivity. Qed.

Lemma handleKeyDown_ArrowDown :
  handleKeyDown p "ArrowDown"
  = [PreventDefault;
     OnChange (if value p - 1 <? min p then max p else value p - 1)].
Proof. reflexivity. Qed.

Lemma handleKeyDown_digit (key : string) :
  Js.isSingleDigit key = true ->
  handleKeyDown p key = PreventDefault :: digitEntry p key.
Proof.
  intros Hk. destruct (singleDigit_inv key Hk) as (c & -> & Hc).
  unfold handleKeyDown. cbn [String.eqb Js.isSingleDigit]. rewrite Hc.
  destruct (Ascii.eqb c "T"), (Ascii.eqb c "A"); reflexivity.
Qed.

(** The keys the handler knows are pairwise different, so at most one of
    its [if] statements runs. *)
Lemma handleKeyDown_cases (key : string) :
  handleKeyDown p key = []
  \/ handleKeyDown p key = [PreventDefault; OnLeftFocus]
  \/ handleKeyDown p key = [PreventDefault; OnRightFocus]
  \/ (key = "ArrowUp"%string
      /\ handleKeyDown p key
         = [PreventDefault;
            OnChange (if value p + 1 >? max p then min p else value p + 1)])
  \/ (key = "ArrowDown"%string
      /\ handleKeyDown p key
         = [PreventDefault;
            OnChange (if value p - 1 <? min p then max p else value p - 1)])
  \/ (Js.isSingleDigit key = true
      /\ handleKeyDown p key = PreventDefault :: digitEntry p key).
Proof.
  destruct (Js.isSingleDigit key) eqn:Hd.
  { do 5 right. split; [reflexivity |]. now apply handleKeyDown_digit. }
  unfold handleKeyDown. rewrite Hd.
  destruct (String.eqb_spec key "Tab") as [-> | _]; [now left |].
  destruct (String.eqb_spec key "ArrowLeft") as [-> | _].
  { cbn. destruct (onLeftFocus p); cbn; auto. }
  destruct (String.eqb_spec key "ArrowRight") as [-> | _].
  { cbn. destruct (onRightFocus p), (isLastField p); cbn; auto. }
  destruct (String.eqb_spec key "ArrowUp") as [-> | _].
  { cbn. do 3 right. left. auto. }
  destruct (String.eqb_spec key "ArrowDown") as [-> | _].
  { cbn. do 4 right. left. auto. }
  cbn. now left.
Qed.

Lemma digitEntry_spec (key : string) :
  Js.isSingleDigit key = true ->
  exists cand d,
    Js.parseInt (Js.slice (formatNumber (value p)) 1 ++ key) = Some cand
    /\ Js.parseInt key = Some d
    /\ 0 <= d <= 9
    /\ digitEntry p key
       = if (cand >=? min p) && (cand <=? max p) then
           OnChange cand
           :: (if onRightFocus p && negb (isLastField p)
               then [OnRightFocus] else [])
         else if (d >=? min p) && (d <=? max p) then [OnChange d]
         else [].
Proof.
  intros Hk.
  destruct (rolledString_digits (value p) key Hk) as [Ha Hne].
  destruct (parseInt_key key Hk) as (d & Hd & Hr).
  exists (Js.digitsValue 0 (rolledString (value p) key)), d.
  rewrite <- rolledString_formatNumber.
  pose proof (allDigits_parseInt _ Ha Hne) as Hp.
  split; [exact Hp |]. split; [exact Hd |]. split; [exact Hr |].
  unfold digitEntry. rewrite Hp, Hd. reflexivity.
Qed.

End Keys.

(** On a value shown with two digits, rolling drops the tens and makes the
    typed digit the new units. *)
Lemma rolled_two_digits (v : Z) (key : string) (d : Z) :
  0 <= v <= 99 ->
  Js.isSingleDigit key = true ->
  Js.parseInt key = Some d ->
  Js.parseInt (IntervalInput.rolledString v key) = Some (10 * (v mod 10) + d).
Proof.
  intros Hv Hk Hd.
  assert (Hall :
    forallb (fun n =>
      forallb (fun k =>
        match Js.parseInt
                (IntervalInput.rolledString (Z.of_nat n)
                   (String (ascii_of_nat (48 + k)) EmptyString)) with
        | Some x => x =? 10 * (Z.of_nat n mod 10) + Z.of_nat k
        | None => false
        end) (seq 0 10)) (seq 0 100) = true) by (vm_compute; reflexivity).
  destruct (singleDigit_inv key Hk) as (c & -> & Hc).
  rewrite (parseInt_digits _ _ Hc) in Hd. cbn in Hd. rewrite Hc in Hd.
  injection Hd as <-.
  assert (Hn : (48 <= nat_of_ascii c <= 57)%nat).
  { unfold Js.isDigit in Hc. apply andb_true_iff in Hc as [H1 H2].
    apply Nat.leb_le in H1, H2. lia. }
  rewrite forallb_forall in Hall.
  specialize (Hall (Z.to_nat v)). rewrite in_seq in Hall.
  assert (Hin : (0 <= Z.to_nat v < 0 + 100)%nat) by lia.
  specialize (Hall Hin). rewrite forallb_forall in Hall.
  specialize (Hall (nat_of_ascii c - 48)%nat). rewrite in_seq in Hall.
  assert (Hik : (0 <= nat_of_ascii c - 48 < 0 + 10)%nat) by lia.
  specialize (Hall Hik).
  replace (48 + (nat_of_ascii c - 48))%nat with (nat_of_ascii c) in Hall
    by lia.
  rewrite ascii_nat_embedding, Z2Nat.id in Hall by lia.
  destruct (Js.parseInt _) as [x |]; [| discriminate].
  apply Z.eqb_eq in Hall. subst x. f_equal.
  unfold Js.digitValue. lia.
Qed.

(** ** The editor's wiring of a cell *)

Lemma focusMoves_app (t1 t2 : list Effect) :
  focusMoves (t1 ++ t2) = focusMoves t1 ++ focusMoves t2.
Proof. apply flat_map_app. Qed.

Lemma handleIntervalChange_no_focus (props : Props.t) (n : Duration) :
  focusMoves (handleIntervalChange props n) = [].
Proof.
  destruct (validShape_dec (adjustedInterval props n)) as [H | H].
  - now rewrite (handleIntervalChange_valid _ _ H).
  - now rewrite (handleIntervalChange_invalid _ _ H).
Qed.

Lemma keyDown_arrow_no_focus (props : Props.t) (f : Field) (key : string) :
  key = "ArrowUp"%string \/ key = "ArrowDown"%string ->
  focusMoves (keyDown props f key) = [].
Proof.
  intros Hk. unfold keyDown. destruct (rendered props f); [| reflexivity].
  destruct Hk as [-> | ->].
  - rewrite handleKeyDown_ArrowUp. cbn [flat_map perform app].
    rewrite app_nil_r, setField_handleIntervalChange.
    apply handleIntervalChange_no_focus.
  - rewrite handleKeyDown_ArrowDown. cbn [flat_map perform app].
    rewrite app_nil_r, setField_handleIntervalChange.
    apply handleIntervalChange_no_focus.
Qed.

(** ** Digit entry *)

(** C5 (as stated, refuted).  The focus handler is called only when the
    parent supplied one.  A cell that is not the last field and has no
    [onRightFocus] commits the rolled candidate 53 and calls nothing else.
    In the editor, with minutes hidden and seconds shown, the hours cell is
    not the last field, yet a digit that commits 12 leaves the focus where
    it is. *)
Lemma digit_no_focus_advance_counterexample :
  (IntervalInput.isLastField cellWithoutRightHandler = false
   /\ IntervalInput.handleKeyDown cellWithoutRightHandler "3"
      = [IntervalInput.PreventDefault; IntervalInput.OnChange 53])
  /\ (IntervalInput.isLastField (inputProps hiddenMinutesProps Hours) = false
      /\ rendered hiddenMinutesProps Seconds = true
      /\ keyDown hiddenMinutesProps Hours "2"
         = [SetInterval (mkDuration 12 0 0)]).
Proof.
  repeat split; vm_compute; reflexivity.
Qed.

(** C5 (amended).  On a digit key the handler forms a candidate from the
    zero-padded display of the value without its first character, followed
    by the digit, parsed as an integer; on a value from 0 to 99 that is ten
    times the units plus the digit.  If the candidate is within the bounds
    it is committed, and the move-focus-right handler is called when one
    was supplied and this is not the last field.  Otherwise, if the digit
    alone is within the bounds, the digit is committed and no focus handler
    is called.  Otherwise nothing is committed and no focus handler is
    called. *)
Theorem digit_key_spec (p : IntervalInput.Props) (key : string) :
  Js.isSingleDigit key = true ->
  exists cand d,
    Js.parseInt (Js.slice (formatNumber (IntervalInput.value p)) 1 ++ key)
    = Some cand
    /\ Js.parseInt key = Some d
    /\ 0 <= d <= 9
    /\ (0 <= IntervalInput.value p <= 99 ->
        cand = 10 * (IntervalInput.value p mod 10) + d)
    /\ (IntervalInput.min p <= cand <= IntervalInput.max p ->
        IntervalInput.handleKeyDown p key
        = IntervalInput.PreventDefault
          :: IntervalInput.OnChange cand
          :: (if IntervalInput.onRightFocus p
                 && negb (IntervalInput.isLastField p)
              then [IntervalInput.OnRightFocus] else []))
    /\ (~ (IntervalInput.min p <= cand <= IntervalInput.max p) ->
        IntervalInput.min p <= d <= IntervalInput.max p ->
        IntervalInput.handleKeyDown p key
        = [IntervalInput.PreventDefault; IntervalInput.OnChange d])
    /\ (~ (IntervalInput.min p <= cand <= IntervalInput.max p) ->
        ~ (IntervalInput.min p <= d <= IntervalInput.max p) ->
        IntervalInput.handleKeyDown p key = [IntervalInput.PreventDefault]).
Proof.
  intros Hk.
  destruct (digitEntry_spec p key Hk) as (cand & d & Hc & Hd & Hr & He).
  exists cand, d.
  split; [exact Hc |]. split; [exact Hd |]. split; [exact Hr |].
  split.
  { intros Hv. rewrite <- rolledString_formatNumber in Hc.
    rewrite (rolled_two_digits _ _ _ Hv Hk Hd) in Hc. congruence. }
  rewrite (handleKeyDown_digit p key Hk), He.
  destruct (Z.geb_spec cand (IntervalInput.min p)),
    (Z.leb_spec cand (IntervalInput.max p)),
    (Z.geb_spec d (IntervalInput.min p)),
    (Z.leb_spec d (IntervalInput.max p));
    cbn [andb]; repeat split; intros; try reflexivity; lia.
Qed.

Lemma digit_key_spec_witness :
  IntervalInput.handleKeyDown cellWithRightHandler "3"
  = [IntervalInput.PreventDefault; IntervalInput.OnChange 53;
     IntervalInput.OnRightFocus]
  /\ IntervalInput.handleKeyDown cellUpToFive "9"
     = [IntervalInput.PreventDefault].
Proof.
  split.
  - destruct (digit_key_spec cellWithRightHandler "3" eq_refl)
      as (cand & d & Hc & _ & _ & _ & Hin & _).
    vm_compute in Hc. injection Hc as <-.
    apply Hin. cbn. lia.
  - destruct (digit_key_spec cellUpToFive "9" eq_refl)
      as (cand & d & Hc & Hd & _ & _ & _ & _ & Hout).
    vm_compute in Hc, Hd. injection Hc as <-. injection Hd as <-.
    apply Hout; cbn; lia.
Defined.

(** ** Arrow keys *)

(** C6.  Up-arrow commits the value plus one when that does not exceed the
    maximum and the minimum otherwise; Down-arrow commits the value minus
    one when that is not below the minimum and the maximum otherwise.
    Neither calls a focus handler, and in the editor neither gives focus to
    any cell. *)
Theorem arrow_keys_spec (p : IntervalInput.Props) :
  (IntervalInput.value p + 1 <= IntervalInput.max p ->
   IntervalInput.handleKeyDown p "ArrowUp"
   = [IntervalInput.PreventDefault;
      IntervalInput.OnChange (IntervalInput.value p + 1)])
  /\ (IntervalInput.max p < IntervalInput.value p + 1 ->
      IntervalInput.handleKeyDown p "ArrowUp"
      = [IntervalInput.PreventDefault;
         IntervalInput.OnChange (IntervalInput.min p)])
  /\ (IntervalInput.min p <= IntervalInput.value p - 1 ->
      IntervalInput.handleKeyDown p "ArrowDown"
      = [IntervalInput.PreventDefault;
         IntervalInput.OnChange (IntervalInput.value p - 1)])
  /\ (IntervalInput.value p - 1 < IntervalInput.min p ->
      IntervalInput.handleKeyDown p "ArrowDown"
      = [IntervalInput.PreventDefault;
         IntervalInput.OnChange (IntervalInput.max p)])
  /\ existsb IntervalInput.movesFocus (IntervalInput.handleKeyDown p "ArrowUp")
     = false
  /\ existsb IntervalInput.movesFocus
       (IntervalInput.handleKeyDown p "ArrowDown")
     = false
  /\ (forall props f,
         focusMoves (keyDown props f "ArrowUp") = []
         /\ focusMoves (keyDown props f "ArrowDown") = []).
Proof.
  rewrite handleKeyDown_ArrowUp, handleKeyDown_ArrowDown.
  destruct (Z.gtb_spec (IntervalInput.value p + 1) (IntervalInput.max p)),
    (Z.ltb_spec (IntervalInput.value p - 1) (IntervalInput.min p));
    repeat split; intros; try reflexivity; try lia;
    apply keyDown_arrow_no_focus; auto.
Qed.

Lemma arrow_keys_spec_witness :
  IntervalInput.handleKeyDown cellWithRightHandler "ArrowUp"
  = [IntervalInput.PreventDefault; IntervalInput.OnChange 6]
  /\ IntervalInput.handleKeyDown (IntervalInput.mkProps 59 0 59 true true false)
       "ArrowUp"
     = [IntervalInput.PreventDefault; IntervalInput.OnChange 0]
  /\ IntervalInput.handleKeyDown cellWithRightHandler "ArrowDown"
     = [IntervalInput.PreventDefault; IntervalInput.OnChange 4]
  /\ IntervalInput.handleKeyDown (IntervalInput.mkProps 0 0 59 true true false)
       "ArrowDown"
     = [IntervalInput.PreventDefault; IntervalInput.OnChange 59].
Proof.
  split; [| split; [| split]].
  - apply (proj1 (arrow_keys_spec cellWithRightHandler)). cbn. lia.
  - apply (proj1 (proj2 (arrow_keys_spec
             (IntervalInput.mkProps 59 0 59 true true false)))).
    cbn. lia.
  - apply (proj1 (proj2 (proj2 (arrow_keys_spec cellWithRightHandler)))).
    cbn. lia.
  - apply (proj1 (proj2 (proj2 (proj2 (arrow_keys_spec
             (IntervalInput.mkProps 0 0 59 true true false)))))).
    cbn. lia.
Defined.

(** ** What a cell passes to [onChange] *)

Lemma committed_digitEntry (p : IntervalInput.Props) (key : string) (v : Z) :
  In v (IntervalInput.committed (IntervalInput.digitEntry p key)) ->
  IntervalInput.min p <= v <= IntervalInput.max p.
Proof.
  unfold IntervalInput.digitEntry.
  assert (Hsingle :
    In v (IntervalInput.committed
            match Js.parseInt key with
            | Some k =>
                if (k >=? IntervalInput.min p) && (k <=? IntervalInput.max p)
                then [IntervalInput.OnChange k] else []
            | None => []
            end) ->
    IntervalInput.min p <= v <= IntervalInput.max p).
  { destruct (Js.parseInt key) as [k |]; [| intros []].
    destruct (Z.geb_spec k (IntervalInput.min p)),
      (Z.leb_spec k (IntervalInput.max p)); cbn; intros Hin;
      try contradiction; destruct Hin as [<- | []]; lia. }
  destruct (Js.parseInt (IntervalInput.rolledString _ key)) as [n |];
    [| exact Hsingle].
  destruct (Z.geb_spec n (IntervalInput.min p)),
    (Z.leb_spec n (IntervalInput.max p)); cbn [andb]; try exact Hsingle.
  destruct (IntervalInput.onRightFocus p && negb (IntervalInput.isLastField p));
    cbn; intros [<- | []]; lia.
Qed.

(** C10 (as stated, refuted).  An arrow key from a value outside the range
    need not land inside it.  The minutes cell of the editor that holds two
    minutes under a minimum of five has the range 5..59 and the value 2;
    Up-arrow passes 3.  A cell with the value 70 in the range 0..59 passes
    69 on Down-arrow. *)
Lemma arrow_out_of_range_counterexample :
  (IntervalInput.min (inputProps belowMinimumProps Minutes) = 5
   /\ IntervalInput.max (inputProps belowMinimumProps Minutes) = 59
   /\ IntervalInput.committed
        (IntervalInput.handleKeyDown
           (inputProps belowMinimumProps Minutes) "ArrowUp")
      = [3])
  /\ (IntervalInput.committed
        (IntervalInput.handleKeyDown cellAboveRange "ArrowDown")
      = [69]).
Proof.
  repeat split.
Qed.

(** C10 (amended).  With the minimum at most the maximum, every value the
    keyboard handler passes to [onChange] lies within the bounds provided
    that, for Up-arrow, the value is at least the minimum minus one and, for
    Down-arrow, at most the maximum plus one; both hold for a value within
    the bounds.  Digit entry only commits values within the bounds, whatever
    the value is.  Up-arrow from above the maximum commits the minimum and
    Down-arrow from below the minimum commits the maximum.  A direct text
    replacement passes a value only if the text parses to an integer within
    the bounds, and passes that integer. *)
Theorem committed_in_range (p : IntervalInput.Props) :
  IntervalInput.min p <= IntervalInput.max p ->
  (forall key v,
      In v (IntervalInput.committed (IntervalInput.handleKeyDown p key)) ->
      (key = "ArrowUp"%string ->
       IntervalInput.min p - 1 <= IntervalInput.value p) ->
      (key = "ArrowDown"%string ->
       IntervalInput.value p <= IntervalInput.max p + 1) ->
      IntervalInput.min p <= v <= IntervalInput.max p)
  /\ (forall key v,
         Js.isSingleDigit key = true ->
         In v (IntervalInput.committed (IntervalInput.handleKeyDown p key)) ->
         IntervalInput.min p <= v <= IntervalInput.max p)
  /\ (IntervalInput.max p < IntervalInput.value p ->
      IntervalInput.committed (IntervalInput.handleKeyDown p "ArrowUp")
      = [IntervalInput.min p])
  /\ (IntervalInput.value p < IntervalInput.min p ->
      IntervalInput.committed (IntervalInput.handleKeyDown p "ArrowDown")
      = [IntervalInput.max p])
  /\ (forall text v,
         In v (IntervalInput.committed (IntervalInput.handleChange p text)) ->
         Js.parseInt text = Some v
         /\ IntervalInput.min p <= v <= IntervalInput.max p).
Proof.
  intros Hb. split; [| split; [| split; [| split]]].
  - intros key v Hin Hup Hdown.
    destruct (handleKeyDown_cases p key)
      as [H | [H | [H | [[Hk H] | [[Hk H] | [Hk H]]]]]];
      rewrite H in Hin; cbn in Hin; try contradiction.
    + specialize (Hup Hk). destruct Hin as [<- | []].
      destruct (Z.gtb_spec (IntervalInput.value p + 1) (IntervalInput.max p));
        lia.
    + specialize (Hdown Hk). destruct Hin as [<- | []].
      destruct (Z.ltb_spec (IntervalInput.value p - 1) (IntervalInput.min p));
        lia.
    + now apply committed_digitEntry in Hin.
  - intros key v Hk Hin. rewrite (handleKeyDown_digit p key Hk) in Hin.
    cbn in Hin. now apply committed_digitEntry in Hin.
  - intros Hv. rewrite handleKeyDown_ArrowUp. cbn.
    destruct (Z.gtb_spec (IntervalInput.value p + 1) (IntervalInput.max p));
      [reflexivity | lia].
  - intros Hv. rewrite handleKeyDown_ArrowDown. cbn.
    destruct (Z.ltb_spec (IntervalInput.value p - 1) (IntervalInput.min p));
      [reflexivity | lia].
  - intros text v. unfold IntervalInput.handleChange.
    destruct (Js.parseInt text) as [val |]; [| intros []].
    destruct (Z.geb_spec val (IntervalInput.min p)),
      (Z.leb_spec val (IntervalInput.max p)); cbn; intros Hin;
      try contradiction; destruct Hin as [<- | []]; split; auto; lia.
Qed.

Lemma committed_in_range_witness :
  0 <= 6 <= 59
  /\ IntervalInput.committed
       (IntervalInput.handleKeyDown cellAboveRange "ArrowUp")
     = [0]
  /\ (Js.parseInt " 42px" = Some 42 /\ 0 <= 42 <= 59).
Proof.
  assert (Hb : IntervalInput.min cellWithRightHandler
               <= IntervalInput.max cellWithRightHandler) by (cbn; lia).
  assert (Hb' : IntervalInput.min cellAboveRange
                <= IntervalInput.max cellAboveRange) by (cbn; lia).
  destruct (committed_in_range cellWithRightHandler Hb)
    as (Hkeys & _ & _ & _ & Htext).
  destruct (committed_in_range cellAboveRange Hb') as (_ & _ & Hup & _).
  split; [| split].
  - apply (Hkeys "ArrowUp"%string 6).
    + cbn. left. reflexivity.
    + intros _. cbn. lia.
    + intros H. discriminate H.
  - apply Hup. cbn. lia.
  - apply (Htext " 42px"%string 42). cbn. left. reflexivity.
Defined.

(** * Further properties of the code *)

(** ** The total order behind the clamp *)

Lemma validShape_subMinute (d : Duration) : validShape d -> subMinute d.
Proof. unfold validShape, subMinute. tauto. Qed.



Lemma clamp_fixed_iff (d lo hi : Duration) :
  getNextValidDuration d lo hi = d <-> withinBounds d lo hi.
Proof.
  unfold withinBounds.
  destruct (getNextValidDuration_cases d lo hi)
    as [[H ->] | [(H1 & H2 & ->) | [H ->]]].
  - split; [intros <- | ]; lia.
  - split; [intros <- | ]; lia.
  - tauto.
Qed.

(** X2.  The clamp leaves a duration as it is exactly when the duration lies
    between the bounds by total milliseconds. *)
Theorem getNextValidDuration_fixed_iff (d lo hi : Duration) :
  getNextValidDuration d lo hi = d <-> withinBounds d lo hi.
Proof. apply clamp_fixed_iff. Qed.

(** X3.  With the bounds in order, clamping twice is clamping once: what the
    editor emits is accepted unchanged when it comes back as an update. *)
Theorem getNextValidDuration_idempotent (d lo hi : Duration) :
  durationToMs lo <= durationToMs hi ->
  getNextValidDuration (getNextValidDuration d lo hi) lo hi
  = getNextValidDuration d lo hi.
Proof.
  intros Hb. apply clamp_fixed_iff.
  now apply getNextValidDuration_within.
Qed.

Lemma getNextValidDuration_idempotent_witness :
  getNextValidDuration
    (getNextValidDuration
       (mkDuration 25 0 0) (mkDuration 0 5 0) (mkDuration 24 0 0))
    (mkDuration 0 5 0) (mkDuration 24 0 0)
  = getNextValidDuration
      (mkDuration 25 0 0) (mkDuration 0 5 0) (mkDuration 24 0 0).
Proof.
  apply (getNextValidDuration_idempotent
           (mkDuration 25 0 0) (mkDuration 0 5 0) (mkDuration 24 0 0)).
  cbv. discriminate.
Defined.

(** X4.  The clamp is monotone: with the bounds in order, a duration with
    the smaller total is clamped to a duration with the smaller or the same
    total. *)
Theorem getNextValidDuration_monotone (a b lo hi : Duration) :
  durationToMs lo <= durationToMs hi ->
  durationToMs a <= durationToMs b ->
  durationToMs (getNextValidDuration a lo hi)
  <= durationToMs (getNextValidDuration b lo hi).
Proof.
  intros Hb Hab.
  destruct (getNextValidDuration_cases a lo hi)
    as [[Ha ->] | [(Ha1 & Ha2 & ->) | [Ha ->]]];
    destruct (getNextValidDuration_cases b lo hi)
      as [[Hb' ->] | [(Hb1 & Hb2 & ->) | [Hb' ->]]]; lia.
Qed.

Lemma getNextValidDuration_monotone_witness :
  durationToMs
    (getNextValidDuration
       (mkDuration 0 1 0) (mkDuration 0 5 0) (mkDuration 24 0 0))
  <= durationToMs
       (getNextValidDuration
          (mkDuration 30 0 0) (mkDuration 0 5 0) (mkDuration 24 0 0)).
Proof.
  apply (getNextValidDuration_monotone
           (mkDuration 0 1 0) (mkDuration 30 0 0)
           (mkDuration 0 5 0) (mkDuration 24 0 0)); cbv; discriminate.
Defined.

(** X5.  Under the default bounds every duration of the schema's shape with
    at most 999999 hours is left as it is: the defaults only cap the hours. *)
Theorem default_bounds_keep (d : Duration) :
  validShape d -> hours d <= 999999 ->
  getNextValidDuration d DEFAULT_MIN_INTERVAL DEFAULT_MAX_INTERVAL = d.
Proof.
  intros (Hh & Hm & Hs) Hcap. apply clamp_fixed_iff.
  unfold withinBounds, durationToMs. cbn. lia.
Qed.

Lemma default_bounds_keep_witness :
  getNextValidDuration
    (mkDuration 999999 59 59) DEFAULT_MIN_INTERVAL DEFAULT_MAX_INTERVAL
  = mkDuration 999999 59 59.
Proof.
  apply (default_bounds_keep (mkDuration 999999 59 59)).
  - cbv. intuition discriminate.
  - cbv. discriminate.
Defined.

(** ** What the schema reports *)

Lemma In_checkMin (f : Field) (lo v : Z) (i : Zod.Issue) :
  In i (Zod.checkMin f lo v) <-> i = Zod.mkIssue Zod.too_small f /\ v < lo.
Proof.
  unfold Zod.checkMin. destruct (Z.ltb_spec v lo); cbn.
  - split; [intros [<- | []]; auto | intros [-> _]; auto].
  - split; [intros [] | intros [_ ?]; lia].
Qed.

Lemma In_checkMax (f : Field) (hi v : Z) (i : Zod.Issue) :
  In i (Zod.checkMax f hi v) <-> i = Zod.mkIssue Zod.too_big f /\ hi < v.
Proof.
  unfold Zod.checkMax. destruct (Z.gtb_spec v hi); cbn.
  - split; [intros [<- | []]; auto | intros [-> _]; auto].
  - split; [intros [] | intros [_ ?]; lia].
Qed.

Lemma In_durationSchema_issues (d : Duration) (i : Zod.Issue) :
  In i (durationSchema_issues d)
  <-> (Zod.code i = Zod.too_small /\ getField (Zod.path i) d < 0)
      \/ (Zod.code i = Zod.too_big /\ Zod.path i <> Hours
          /\ 59 < getField (Zod.path i) d).
Proof.
  unfold durationSchema_issues.
  rewrite !in_app_iff, !In_checkMin, !In_checkMax.
  destruct i as [c f]; cbn [Zod.code Zod.path].
  split.
  - intros [[[= -> ->] H] | [[[[= -> ->] H] | [[= -> ->] H]]
                            | [[[= -> ->] H] | [[= -> ->] H]]]];
      cbn; (left; split; [reflexivity | exact H])
           || (right; split; [reflexivity | split; [discriminate | exact H]]).
  - intros [[-> H] | (-> & Hne & H)]; destruct f; cbn in H;
      try congruence; tauto.
Qed.

(** X6.  The schema reports an issue for a field exactly when the field is
    out of its range: [too_small] for a negative field, [too_big] for
    minutes or seconds above 59, never [too_big] for hours and never two
    issues for one field.  The parse succeeds, returning its argument,
    exactly when there is nothing to report. *)
Theorem durationSchema_issues_spec (d : Duration) :
  (forall i,
      In i (durationSchema_issues d)
      <-> (Zod.code i = Zod.too_small /\ getField (Zod.path i) d < 0)
          \/ (Zod.code i = Zod.too_big /\ Zod.path i <> Hours
              /\ 59 < getField (Zod.path i) d))
  /\ NoDup (map Zod.path (durationSchema_issues d))
  /\ (durationSchema_parse d = inr d <-> durationSchema_issues d = []).
Proof.
  split; [apply In_durationSchema_issues |]. split.
  - unfold durationSchema_issues, Zod.checkMin, Zod.checkMax.
    destruct (Z.ltb_spec (hours d) 0), (Z.ltb_spec (minutes d) 0),
      (Z.gtb_spec (minutes d) 59), (Z.ltb_spec (seconds d) 0),
      (Z.gtb_spec (seconds d) 59); try lia; cbn;
      repeat constructor; cbn; intuition discriminate.
  - unfold durationSchema_parse.
    destruct (durationSchema_issues d); split; intros H;
      reflexivity || discriminate H.
Qed.

(** ** Cascading bounds *)

Lemma getField_in_cell_range (d lo hi : Duration) (f : Field) :
  validShape d -> validShape lo -> validShape hi ->
  withinBounds d lo hi ->
  getMinValueForField f d lo <= getField f d <= getMaxValueForField f d hi.
Proof.
  unfold validShape, withinBounds, durationToMs,
    getMinValueForField, getMaxValueForField.
  destruct d as [h m s], lo as [hl ml sl], hi as [hh mh sh];
    cbn [hours minutes seconds].
  intros Hd Hl Hh Hw.
  destruct f; cbn [Field_eqb getField andb hours minutes seconds];
    try lia;
    destruct (Z.eqb_spec h hl), (Z.eqb_spec h hh),
      (Z.eqb_spec m ml), (Z.eqb_spec m mh); cbn [andb]; lia.
Qed.



(** The cell ranges contain only values of the schema's shape. *)
Lemma cell_range_valid (d lo hi : Duration) (f : Field) (v : Z) :
  validShape d -> validShape lo -> validShape hi ->
  getMinValueForField f d lo <= v <= getMaxValueForField f d hi ->
  validShape (withField f v d).
Proof.
  unfold validShape, getMinValueForField, getMaxValueForField.
  destruct d as [h m s], lo as [hl ml sl], hi as [hh mh sh];
    cbn [hours minutes seconds].
  intros Hd Hl Hh.
  destruct f; cbn [Field_eqb withField andb hours minutes seconds];
    try lia;
    destruct (Z.eqb_spec h hl), (Z.eqb_spec h hh),
      (Z.eqb_spec m ml), (Z.eqb_spec m mh); cbn [andb]; lia.
Qed.



(** ** Display and parse *)

Lemma digitsValue_of_uint_acc (d : Decimal.uint) (acc : positive) :
  Js.digitsValue (Z.pos acc) (NilEmpty.string_of_uint d)
  = Z.pos (Pos.of_uint_acc d acc).
Proof.
  revert acc.
  induction d; intros acc;
    cbn [NilEmpty.string_of_uint Js.digitsValue Pos.of_uint_acc];
    [reflexivity | ..];
    match goal with
    | |- context [Js.isDigit ?c] => change (Js.isDigit c) with true; cbv iota
    end;
    rewrite <- IHd; f_equal;
    try match goal with
        | |- context [Js.digitValue ?c] =>
            let n := eval vm_compute in (Js.digitValue c) in
            change (Js.digitValue c) with n
        end;
    lia.
Qed.

Lemma digitsValue_of_uint (d : Decimal.uint) :
  Js.digitsValue 0 (NilEmpty.string_of_uint d) = Z.of_N (Pos.of_uint d).
Proof.
  induction d;
    cbn [NilEmpty.string_of_uint Js.digitsValue Pos.of_uint];
    [reflexivity | ..];
    match goal with
    | |- context [Js.isDigit ?c] => change (Js.isDigit c) with true; cbv iota
    end;
    [exact IHd | ..];
    cbn [Z.of_N]; rewrite <- digitsValue_of_uint_acc; reflexivity.
Qed.

Lemma string_of_uint_nonnil (d : Decimal.uint) :
  d <> Decimal.Nil ->
  NilZero.string_of_uint d = NilEmpty.string_of_uint d.
Proof. destruct d; [congruence | reflexivity ..]. Qed.

Lemma digitsValue_toString_pos (q : positive) :
  Js.toString (Z.pos q) = NilEmpty.string_of_uint (Pos.to_uint q)
  /\ Js.digitsValue 0 (NilEmpty.string_of_uint (Pos.to_uint q)) = Z.pos q.
Proof.
  split.
  - unfold Js.toString. cbn.
    apply string_of_uint_nonnil, DecimalPos.Unsigned.to_uint_nonnil.
  - rewrite digitsValue_of_uint, DecimalPos.Unsigned.of_to. reflexivity.
Qed.

Lemma startsWithDigit_allDigits (s : string) :
  Js.allDigits s = true -> s <> EmptyString -> Js.startsWithDigit s = true.
Proof.
  destruct s as [|c s]; [congruence |]. cbn.
  now intros [H _]%andb_true_iff _.
Qed.

Lemma parseInt_toString (v : Z) : Js.parseInt (Js.toString v) = Some v.
Proof.
  destruct v as [|q|q].
  - reflexivity.
  - destruct (digitsValue_toString_pos q) as [-> Hv].
    rewrite allDigits_parseInt, Hv; [reflexivity | |].
    + apply allDigits_string_of_uint.
    + apply string_of_uint_nonempty, DecimalPos.Unsigned.to_uint_nonnil.
  - destruct (digitsValue_toString_pos q) as [Hs Hv].
    unfold Js.toString in *. cbn [Z.to_int NilZero.string_of_int] in *.
    rewrite Hs. unfold Js.parseInt. cbn [Js.trimStart].
    change (Js.isWhiteSpace "-") with false. cbv iota.
    rewrite startsWithDigit_allDigits, Hv; [reflexivity | |].
    + apply allDigits_string_of_uint.
    + apply string_of_uint_nonempty, DecimalPos.Unsigned.to_uint_nonnil.
Qed.

Lemma digitsValue_leading_zeros (k : nat) (s : string) :
  Js.digitsValue 0 (Js.replicate k "0" ++ s) = Js.digitsValue 0 s.
Proof.
  induction k as [|k IH]; [reflexivity |]. cbn. exact IH.
Qed.

Lemma length_append (s t : string) :
  String.length (s ++ t) = (String.length s + String.length t)%nat.
Proof. induction s as [|c s IH]; cbn; [reflexivity | now rewrite IH]. Qed.

Lemma length_replicate (k : nat) (c : ascii) :
  String.length (Js.replicate k c) = k.
Proof. induction k as [|k IH]; cbn; [reflexivity | now rewrite IH]. Qed.

Lemma length_toString_small (v : Z) :
  0 <= v <= 99 -> (String.length (Js.toString v) <= 2)%nat.
Proof.
  intros Hv.
  assert (Hall : forallb (fun n =>
                   (String.length (Js.toString (Z.of_nat n)) <=? 2)%nat)
                   (seq 0 100) = true) by (vm_compute; reflexivity).
  rewrite forallb_forall in Hall. specialize (Hall (Z.to_nat v)).
  rewrite in_seq, Z2Nat.id in Hall by lia.
  apply Nat.leb_le, Hall. lia.
Qed.

(** X9.  The display of a value has at least two characters, exactly two
    for a value from 0 to 99, and parses back to the value: feeding the text
    a cell shows to the cell's own text handler commits the shown value
    when it is within the cell's range and nothing otherwise. *)
Theorem formatNumber_roundtrip (p : IntervalInput.Props) (v : Z) :
  (2 <= String.length (formatNumber v))%nat
  /\ (0 <= v <= 99 -> String.length (formatNumber v) = 2%nat)
  /\ Js.parseInt (formatNumber v) = Some v
  /\ (IntervalInput.min p <= v <= IntervalInput.max p ->
      IntervalInput.handleChange p (formatNumber v)
      = [IntervalInput.OnChange v])
  /\ (~ (IntervalInput.min p <= v <= IntervalInput.max p) ->
      IntervalInput.handleChange p (formatNumber v) = []).
Proof.
  assert (Hlen : String.length (formatNumber v)
                 = (2 - String.length (Js.toString v)
                    + String.length (Js.toString v))%nat).
  { unfold formatNumber, Js.padStart.
    now rewrite length_append, length_replicate. }
  assert (Hparse : Js.parseInt (formatNumber v) = Some v).
  { unfold formatNumber, Js.padStart.
    destruct (toString_shape v) as (ds & Hd & Hne & Hs).
    destruct (Z.ltb_spec v 0).
    - assert (Hl : (2 - String.length (Js.toString v) = 0)%nat).
      { rewrite Hs. destruct ds; [congruence | cbn; lia]. }
      rewrite Hl. cbn [Js.replicate append]. apply parseInt_toString.
    - pose proof (parseInt_toString v) as Hp. rewrite Hs in *.
      rewrite allDigits_parseInt in Hp by assumption.
      rewrite allDigits_parseInt.
      + now rewrite digitsValue_leading_zeros.
      + rewrite allDigits_app, Hd, andb_true_r.
        clear. induction (2 - String.length ds)%nat; cbn; auto.
      + destruct (Js.replicate _ _); [assumption | discriminate]. }
  split; [lia |]. split; [| split; [exact Hparse |]].
  - intros Hv. pose proof (length_toString_small v Hv).
    destruct (toString_shape v) as (ds & _ & Hne & Hs).
    assert (String.length (Js.toString v) <> 0%nat).
    { rewrite Hs. destruct (v <? 0); [cbn; lia |].
      destruct ds; [congruence | cbn; lia]. }
    lia.
  - unfold IntervalInput.handleChange. rewrite Hparse.
    destruct (Z.geb_spec v (IntervalInput.min p)),
      (Z.leb_spec v (IntervalInput.max p)); cbn [andb];
      split; intros; try reflexivity; lia.
Qed.

Lemma formatNumber_roundtrip_witness :
  String.length (formatNumber 5) = 2%nat
  /\ IntervalInput.handleChange cellWithRightHandler (formatNumber 5)
     = [IntervalInput.OnChange 5]
  /\ IntervalInput.handleChange cellUpToFive (formatNumber 7) = [].
Proof.
  split; [| split].
  - apply (proj1 (proj2 (formatNumber_roundtrip cellWithRightHandler 5))).
    lia.
  - apply (proj1 (proj2 (proj2 (proj2
             (formatNumber_roundtrip cellWithRightHandler 5))))).
    cbn. lia.
  - apply (proj2 (proj2 (proj2 (proj2
             (formatNumber_roundtrip cellUpToFive 7))))).
    cbn. lia.
Defined.

(** ** Sequences of keys in one cell *)

(** X10.  On a value within the cell's range Up-arrow and Down-arrow undo
    each other, wrap included: pressing one and then the other, with the
    committed value rendered in between, commits the value the cell started
    with. *)
Theorem arrow_up_down_inverse (p : IntervalInput.Props) :
  IntervalInput.min p <= IntervalInput.value p <= IntervalInput.max p ->
  (exists v1,
      IntervalInput.committed (IntervalInput.handleKeyDown p "ArrowUp") = [v1]
      /\ IntervalInput.committed
           (IntervalInput.handleKeyDown (setValue p v1) "ArrowDown")
         = [IntervalInput.value p])
  /\ (exists v1,
         IntervalInput.committed (IntervalInput.handleKeyDown p "ArrowDown")
         = [v1]
         /\ IntervalInput.committed
              (IntervalInput.handleKeyDown (setValue p v1) "ArrowUp")
            = [IntervalInput.value p]).
Proof.
  intros Hv. split; eexists; split; try reflexivity;
    rewrite ?handleKeyDown_ArrowUp, ?handleKeyDown_ArrowDown;
    cbn [IntervalInput.committed setValue IntervalInput.value
           IntervalInput.min IntervalInput.max].
  - destruct (Z.gtb_spec (IntervalInput.value p + 1) (IntervalInput.max p)).
    + destruct (Z.ltb_spec (IntervalInput.min p - 1) (IntervalInput.min p));
        [f_equal; lia | lia].
    + destruct (Z.ltb_spec (IntervalInput.value p + 1 - 1)
                  (IntervalInput.min p)); [lia | f_equal; lia].
  - destruct (Z.ltb_spec (IntervalInput.value p - 1) (IntervalInput.min p)).
    + destruct (Z.gtb_spec (IntervalInput.max p + 1) (IntervalInput.max p));
        [f_equal; lia | lia].
    + destruct (Z.gtb_spec (IntervalInput.value p - 1 + 1)
                  (IntervalInput.max p)); [lia | f_equal; lia].
Qed.

Lemma arrow_up_down_inverse_witness :
  exists v1,
    IntervalInput.committed
      (IntervalInput.handleKeyDown
         (IntervalInput.mkProps 59 0 59 true true false) "ArrowUp")
    = [v1]
    /\ IntervalInput.committed
         (IntervalInput.handleKeyDown
            (setValue (IntervalInput.mkProps 59 0 59 true true false) v1)
            "ArrowDown")
       = [59].
Proof.
  apply (arrow_up_down_inverse
           (IntervalInput.mkProps 59 0 59 true true false)).
  cbn. lia.
Defined.

Lemma committed_digit_trace (c : Z) (b : bool) :
  IntervalInput.committed
    (IntervalInput.PreventDefault
     :: IntervalInput.OnChange c
     :: (if b then [IntervalInput.OnRightFocus] else []))
  = [c].
Proof. now destruct b. Qed.

(** X11.  Two digits typed in the last cell enter the two-digit number.
    For a shown value from 0 to 99 and a first digit [a] that is itself
    within the range, the first key commits a value that ends in [a], and
    the second key [b], when [10a+b] is within the range, commits [10a+b];
    neither key calls a focus handler. *)
Theorem two_digit_entry (p : IntervalInput.Props) (ka kb : string) (a b : Z) :
  IntervalInput.isLastField p = true ->
  Js.isSingleDigit ka = true -> Js.parseInt ka = Some a ->
  Js.isSingleDigit kb = true -> Js.parseInt kb = Some b ->
  0 <= IntervalInput.value p <= 99 ->
  IntervalInput.min p <= a <= IntervalInput.max p ->
  IntervalInput.min p <= 10 * a + b <= IntervalInput.max p ->
  exists v1,
    IntervalInput.committed (IntervalInput.handleKeyDown p ka) = [v1]
    /\ v1 mod 10 = a
    /\ IntervalInput.handleKeyDown (setValue p v1) kb
       = [IntervalInput.PreventDefault; IntervalInput.OnChange (10 * a + b)]
    /\ existsb IntervalInput.movesFocus (IntervalInput.handleKeyDown p ka)
       = false.
Proof.
  intros Hlast Hka Ha Hkb Hb Hv Hra Hrab.
  destruct (parseInt_key ka Hka) as (a' & Ha' & Hda).
  destruct (parseInt_key kb Hkb) as (b' & Hb' & Hdb).
  assert (a' = a) by congruence. assert (b' = b) by congruence. subst a' b'.
  pose proof (rolled_two_digits _ _ _ Hv Hka Ha) as Hc1.
  assert (Hstep : forall q c,
             IntervalInput.isLastField q = true ->
             Js.parseInt (IntervalInput.rolledString
                            (IntervalInput.value q) kb) = Some c ->
             IntervalInput.min q <= c <= IntervalInput.max q ->
             IntervalInput.handleKeyDown q kb
             = [IntervalInput.PreventDefault; IntervalInput.OnChange c]).
  { intros q c Hq Hc Hr. rewrite (handleKeyDown_digit q kb Hkb).
    unfold IntervalInput.digitEntry. rewrite Hc, Hq, andb_false_r.
    destruct (Z.geb_spec c (IntervalInput.min q)),
      (Z.leb_spec c (IntervalInput.max q)); try lia. reflexivity. }
  rewrite (handleKeyDown_digit p ka Hka).
  unfold IntervalInput.digitEntry. rewrite Hc1, Ha, Hlast, andb_false_r.
  set (c1 := 10 * (IntervalInput.value p mod 10) + a).
  assert (Hc1r : 0 <= c1 <= 99 /\ c1 mod 10 = a).
  { unfold c1. pose proof (Z.mod_pos_bound (IntervalInput.value p) 10).
    split; [lia |].
    rewrite Z.add_comm, Z.mul_comm, Z.mod_add by lia.
    apply Z.mod_small. lia. }
  destruct ((c1 >=? IntervalInput.min p) && (c1 <=? IntervalInput.max p)).
  - exists c1. split; [reflexivity |]. split; [tauto |]. split; [| reflexivity].
    apply Hstep; [exact Hlast | | exact Hrab].
    cbn [setValue IntervalInput.value].
    rewrite (rolled_two_digits c1 kb b) by tauto.
    destruct Hc1r as [_ ->]. reflexivity.
  - destruct (Z.geb_spec a (IntervalInput.min p)),
      (Z.leb_spec a (IntervalInput.max p)); try lia. cbn [andb].
    exists a. split; [reflexivity |].
    split; [apply Z.mod_small; lia |]. split; [| reflexivity].
    apply Hstep; [exact Hlast | | exact Hrab].
    cbn [setValue IntervalInput.value].
    rewrite (rolled_two_digits a kb b) by (try lia; assumption).
    rewrite Z.mod_small by lia. reflexivity.
Qed.

Lemma two_digit_entry_witness :
  exists v1,
    IntervalInput.committed
      (IntervalInput.handleKeyDown
         (IntervalInput.mkProps 47 0 59 true false true) "3")
    = [v1]
    /\ v1 mod 10 = 3
    /\ IntervalInput.handleKeyDown
         (setValue (IntervalInput.mkProps 47 0 59 true false true) v1) "0"
       = [IntervalInput.PreventDefault; IntervalInput.OnChange (10 * 3 + 0)]
    /\ existsb IntervalInput.movesFocus
         (IntervalInput.handleKeyDown
            (IntervalInput.mkProps 47 0 59 true false true) "3")
       = false.
Proof.
  apply (two_digit_entry
           (IntervalInput.mkProps 47 0 59 true false true) "3" "0" 3 0);
    try reflexivity; cbn; lia.
Defined.

(** ** Focus in the editor *)

(** X12.  Among the cells that are shown, the one the editor marks as the
    last field is the rightmost one: a shown cell is the last field exactly
    when no field to its right is shown. *)
Theorem isLastField_rightmost (props : Props.t) (f : Field) :
  shown props f = true ->
  (IntervalInput.isLastField (inputProps props f) = true
   <-> forall g, In g (fieldsAfter f) -> shown props g = false).
Proof.
  unfold inputProps, lastField; cbn [IntervalInput.isLastField].
  destruct f; cbn [shown fieldsAfter]; intros Hs.
  - destruct (showSeconds props) eqn:Hsec, (showMinutes props) eqn:Hmin;
      cbn; split; intros H; try reflexivity; try discriminate H.
    + specialize (H Seconds). cbn in H. rewrite Hsec in H.
      discriminate H; auto.
    + specialize (H Seconds). cbn in H. rewrite Hsec in H.
      discriminate H; auto.
    + specialize (H Minutes). cbn in H. rewrite Hmin in H.
      discriminate H; auto.
    + intros g [<- | [<- | []]]; cbn; assumption.
  - rewrite Hs.
    destruct (showSeconds props) eqn:Hsec; cbn; split; intros H;
      try reflexivity; try discriminate H.
    + specialize (H Seconds). cbn in H. rewrite Hsec in H.
      discriminate H; auto.
    + intros g [<- | []]; cbn; assumption.
  - split; [intros _ g [] | reflexivity].
Qed.

Lemma isLastField_rightmost_witness :
  IntervalInput.isLastField (inputProps hiddenSecondsProps Minutes) = true
  <-> forall g, In g (fieldsAfter Minutes) ->
                shown hiddenSecondsProps g = false.
Proof.
  apply (isLastField_rightmost hiddenSecondsProps Minutes). reflexivity.
Defined.

Lemma In_focusMoves (t : list Effect) (g : Field) :
  In g (focusMoves t) <-> In (Focus g) t.
Proof.
  unfold focusMoves. rewrite in_flat_map. split.
  - intros (e & He & Hg). destruct e; cbn in Hg; try contradiction.
    destruct Hg as [<- | []]. exact He.
  - intros H. exists (Focus g). split; [exact H | now left].
Qed.

Lemma In_emitted (t : list Effect) (d : Duration) :
  In d (emitted t) <-> In (SetInterval d) t.
Proof.
  induction t as [|e t IH]; [tauto |].
  destruct e; cbn; rewrite IH; split;
    try (intros [H | H]; [left; congruence | right; exact H]);
    try (intros H; right; exact H);
    try (intros [H | H]; [discriminate H | exact H]).
Qed.

Lemma focusRef_target (props : Props.t) (g h : Field) :
  In (Focus h) (focusRef props g) -> h = g /\ rendered props g = true.
Proof.
  unfold focusRef. destruct (rendered props g); cbn; [| tauto].
  intros [[= ->] | []]. auto.
Qed.

Lemma handleIntervalChange_effects (props : Props.t) (n : Duration) (e : Effect) :
  In e (handleIntervalChange props n) ->
  (exists d, e = SetInterval d) \/ (exists errors, e = ConsoleError errors).
Proof.
  unfold handleIntervalChange.
  destruct (durationSchema_parse _); cbn; intros H;
    repeat (destruct H as [<- | H]); try contradiction; eauto.
Qed.

Lemma leftFocus_only_focus (props : Props.t) (f : Field) (e : Effect) :
  In e (leftFocus props f) -> exists g, e = Focus g.
Proof.
  unfold leftFocus, focusRef.
  destruct f, (showHours props), (showMinutes props),
    (rendered props Hours), (rendered props Minutes); cbn;
    intros H; try contradiction; destruct H as [<- | []]; eauto.
Qed.

Lemma rightFocus_only_focus (props : Props.t) (f : Field) (e : Effect) :
  In e (rightFocus props f) -> exists g, e = Focus g.
Proof.
  unfold rightFocus, focusRef.
  destruct f, (showMinutes props), (showSeconds props),
    (rendered props Minutes), (rendered props Seconds); cbn;
    intros H; try contradiction; destruct H as [<- | []]; eauto.
Qed.

(** What a key does in the editor, by the kind of the key. *)
Lemma keyDown_cases (props : Props.t) (f : Field) (key : string) :
  keyDown props f key = []
  \/ keyDown props f key = leftFocus props f
  \/ keyDown props f key = rightFocus props f
  \/ ((key = "ArrowUp"%string \/ key = "ArrowDown"%string
       \/ Js.isSingleDigit key = true)
      /\ exists v,
          In v (IntervalInput.committed
                  (IntervalInput.handleKeyDown (inputProps props f) key))
          /\ (keyDown props f key = setField props f v
              \/ keyDown props f key
                 = setField props f v ++ rightFocus props f)).
Proof.
  unfold keyDown. destruct (rendered props f); [| now left].
  destruct (handleKeyDown_cases (inputProps props f) key)
    as [H | [H | [H | [[Hk H] | [[Hk H] | [Hk H]]]]]]; rewrite H.
  - now left.
  - right; left. cbn [flat_map perform app]. apply app_nil_r.
  - right; right; left. cbn [flat_map perform app]. apply app_nil_r.
  - do 3 right. split; [auto |]. eexists. split; [cbn; left; reflexivity |].
    left. cbn [flat_map perform app]. apply app_nil_r.
  - do 3 right. split; [auto |]. eexists. split; [cbn; left; reflexivity |].
    left. cbn [flat_map perform app]. apply app_nil_r.
  - destruct (digitEntry_spec (inputProps props f) key Hk)
      as (cand & d & _ & _ & _ & ->).
    destruct ((cand >=? _) && (cand <=? _)).
    + do 3 right. split; [auto |]. exists cand.
      destruct (IntervalInput.onRightFocus _ && negb _);
        (split; [cbn; left; reflexivity |]);
        cbn [flat_map perform app]; rewrite ?app_nil_r; auto.
    + destruct ((d >=? _) && (d <=? _)).
      * do 3 right. split; [auto |]. exists d.
        split; [cbn; left; reflexivity |].
        cbn [flat_map perform app]; rewrite ?app_nil_r; auto.
      * now left.
Qed.

Lemma focusMoves_leftFocus (props : Props.t) (f : Field) :
  focusMoves (leftFocus props f) = []
  \/ exists g, focusMoves (leftFocus props f) = [g]
               /\ adjacent f g = true /\ rendered props g = true.
Proof.
  unfold leftFocus, focusRef.
  destruct f; [now left | |].
  - destruct (showHours props); [| now left].
    destruct (rendered props Hours) eqn:Hr; [| now left].
    right. exists Hours. auto.
  - destruct (showMinutes props); [| now left].
    destruct (rendered props Minutes) eqn:Hr; [| now left].
    right. exists Minutes. auto.
Qed.

Lemma focusMoves_rightFocus (props : Props.t) (f : Field) :
  focusMoves (rightFocus props f) = []
  \/ exists g, focusMoves (rightFocus props f) = [g]
               /\ adjacent f g = true /\ rendered props g = true.
Proof.
  unfold rightFocus, focusRef.
  destruct f; [| | now left].
  - destruct (showMinutes props); [| now left].
    destruct (rendered props Minutes) eqn:Hr; [| now left].
    right. exists Minutes. auto.
  - destruct (showSeconds props); [| now left].
    destruct (rendered props Seconds) eqn:Hr; [| now left].
    right. exists Seconds. auto.
Qed.

Lemma setField_no_focus (props : Props.t) (f : Field) (v : Z) :
  focusMoves (setField props f v) = [].
Proof.
  rewrite setField_handleIntervalChange. apply handleIntervalChange_no_focus.
Qed.

Lemma emitted_only_focus (t : list Effect) :
  (forall e, In e t -> exists g, e = Focus g) -> emitted t = [].
Proof.
  induction t as [|e t IH]; [reflexivity |]. intros H.
  destruct (H e (or_introl eq_refl)) as [g ->]. cbn.
  apply IH. intros e' He'. apply H. now right.
Qed.

(** X13.  A key pressed in a cell gives focus to at most one cell, and only
    to a neighbouring cell that is on the page: focus never jumps over a
    hidden cell and never goes to a hidden one.  A key that is neither an
    arrow up or down nor a digit changes nothing but focus: it emits no
    duration, no preset selection and no diagnostic. *)
Theorem keyDown_focus_spec (props : Props.t) (f : Field) (key : string) :
  (focusMoves (keyDown props f key) = []
   \/ exists g, focusMoves (keyDown props f key) = [g]
                /\ adjacent f g = true /\ rendered props g = true)
  /\ (key <> "ArrowUp"%string -> key <> "ArrowDown"%string ->
      Js.isSingleDigit key = false ->
      forall e, In e (keyDown props f key) -> exists g, e = Focus g).
Proof.
  destruct (keyDown_cases props f key)
    as [H | [H | [H | [Hk (v & _ & [H | H])]]]]; rewrite H.
  - split; [now left | intros _ _ _ e []].
  - split; [apply focusMoves_leftFocus |].
    intros _ _ _ e. apply leftFocus_only_focus.
  - split; [apply focusMoves_rightFocus |].
    intros _ _ _ e. apply rightFocus_only_focus.
  - split; [left; apply setField_no_focus |].
    intros H1 H2 H3. destruct Hk as [Hk | [Hk | Hk]]; congruence.
  - split.
    + rewrite focusMoves_app, setField_no_focus. apply focusMoves_rightFocus.
    + intros H1 H2 H3. destruct Hk as [Hk | [Hk | Hk]]; congruence.
Qed.

Lemma keyDown_focus_spec_witness :
  exists g, Focus Hours = Focus g.
Proof.
  apply (proj2 (keyDown_focus_spec hiddenSecondsProps Minutes "ArrowLeft"));
    try discriminate; try reflexivity.
  cbn. left. reflexivity.
Defined.

(** ** The editor and its owner *)

Lemma adjustedInterval_valid (props : Props.t) (n : Duration) :
  validShape n -> validShape (adjustedInterval props n).
Proof.
  unfold validShape, adjustedInterval; cbn.
  destruct (showHours props), (showMinutes props), (showSeconds props); lia.
Qed.

Lemma goodState_ordered (props : Props.t) :
  goodState props ->
  durationToMs (minInterval props) <= durationToMs (maxInterval props).
Proof. unfold goodState, withinBounds. lia. Qed.

Lemma handleIntervalChange_good (props : Props.t) (n d : Duration) :
  goodState props ->
  In (SetInterval d) (handleIntervalChange props n) ->
  validShape d /\ withinBounds d (minInterval props) (maxInterval props).
Proof.
  intros Hg Hin. pose proof (goodState_ordered _ Hg) as Hb.
  destruct Hg as (Hl & Hh & Hd & Hw).
  destruct (validShape_dec (adjustedInterval props n)) as [Hv | Hv].
  - rewrite (handleIntervalChange_valid _ _ Hv) in Hin.
    destruct Hin as [[= <-] | []].
    split; [| now apply getNextValidDuration_within].
    destruct (getNextValidDuration_cases (adjustedInterval props n)
                (minInterval props) (maxInterval props))
      as [[_ ->] | [(_ & _ & ->) | [_ ->]]]; assumption.
  - rewrite (handleIntervalChange_invalid _ _ Hv) in Hin.
    destruct Hin as [Hin | [[= <-] | []]]; [discriminate Hin | auto].
Qed.

Lemma handle_good (props : Props.t) (ev : UserEvent) (d : Duration) :
  goodState props ->
  In (SetInterval d) (handle props ev) ->
  validShape d /\ withinBounds d (minInterval props) (maxInterval props).
Proof.
  intros Hg Hin. destruct ev as [f key | f text | key]; cbn [handle] in Hin.
  - destruct (keyDown_cases props f key)
      as [H | [H | [H | [_ (v & _ & [H | H])]]]]; rewrite H in Hin.
    + destruct Hin.
    + apply leftFocus_only_focus in Hin as [g Hin]. discriminate Hin.
    + apply rightFocus_only_focus in Hin as [g Hin]. discriminate Hin.
    + rewrite setField_handleIntervalChange in Hin.
      eapply handleIntervalChange_good; eassumption.
    + apply in_app_or in Hin as [Hin | Hin].
      * rewrite setField_handleIntervalChange in Hin.
        eapply handleIntervalChange_good; eassumption.
      * apply rightFocus_only_focus in Hin as [g Hin]. discriminate Hin.
  - unfold textChange, IntervalInput.handleChange in Hin.
    destruct (rendered props f); [| destruct Hin].
    destruct (Js.parseInt text) as [val |]; [| destruct Hin].
    destruct ((val >=? _) && (val <=? _)); [| destruct Hin].
    cbn [flat_map perform app] in Hin. rewrite app_nil_r in Hin.
    rewrite setField_handleIntervalChange in Hin.
    eapply handleIntervalChange_good; eassumption.
  - unfold handlePresetChange in Hin.
    apply in_app_or in Hin as [Hin | Hin].
    + destruct (findPreset _ _) as [p |]; [| destruct Hin].
      destruct (IntervalPreset.duration p) as [d0 |]; [| destruct Hin].
      eapply handleIntervalChange_good; eassumption.
    + destruct (Props.onPresetChange props); [| destruct Hin].
      destruct Hin as [Hin | []]. discriminate Hin.
Qed.

Lemma store_bounds (props : Props.t) (e : Effect) :
  minInterval (store props e) = minInterval props
  /\ maxInterval (store props e) = maxInterval props.
Proof. destruct e; split; reflexivity. Qed.

Lemma fold_store_good (t : list Effect) (props : Props.t) :
  goodState props ->
  (forall d, In (SetInterval d) t ->
             validShape d
             /\ withinBounds d (minInterval props) (maxInterval props)) ->
  goodState (fold_left store t props)
  /\ minInterval (fold_left store t props) = minInterval props
  /\ maxInterval (fold_left store t props) = maxInterval props.
Proof.
  revert props. induction t as [|e t IH]; intros props Hg Ht; [auto |].
  cbn [fold_left].
  destruct (store_bounds props e) as [Hmin Hmax].
  assert (Hg' : goodState (store props e)).
  { destruct Hg as (Hl & Hh & Hd & Hw).
    destruct e; try (unfold goodState; tauto).
    destruct (Ht d (or_introl eq_refl)) as [Hv Hwd].
    unfold goodState. rewrite Hmin, Hmax.
    change (interval (store props (SetInterval d))) with d. tauto. }
  assert (Ht' : forall d, In (SetInterval d) t ->
                validShape d
                /\ withinBounds d (minInterval (store props e))
                     (maxInterval (store props e))).
  { intros d Hd. rewrite Hmin, Hmax. apply Ht. now right. }
  destruct (IH (store props e) Hg' Ht') as (H1 & H2 & H3).
  rewrite H2, H3, Hmin, Hmax. auto.
Qed.

Lemma dispatch_good (props : Props.t) (ev : UserEvent) :
  goodState props ->
  goodState (dispatch props ev)
  /\ minInterval (dispatch props ev) = minInterval props
  /\ maxInterval (dispatch props ev) = maxInterval props.
Proof.
  intros Hg. apply fold_store_good; [exact Hg |].
  intros d Hd. eapply handle_good; eassumption.
Qed.

(** X14.  The good states are closed under everything the user can do.  If
    the bounds have the schema's shape and the held duration has it and
    lies between them, then after any sequence of keys, text replacements
    and preset selections, each handled by the editor and stored by the
    owner as [App] does, the held duration still has the schema's shape and
    still lies between the same bounds. *)
Theorem runEvents_goodState (props : Props.t) (evs : list UserEvent) :
  goodState props ->
  goodState (runEvents props evs)
  /\ minInterval (runEvents props evs) = minInterval props
  /\ maxInterval (runEvents props evs) = maxInterval props.
Proof.
  unfold runEvents. revert props.
  induction evs as [|ev evs IH]; intros props Hg; [auto |].
  cbn [fold_left]. destruct (dispatch_good props ev Hg) as (Hg' & H1 & H2).
  destruct (IH _ Hg') as (Hg'' & H3 & H4).
  rewrite H3, H4, H1, H2. auto.
Qed.

Lemma runEvents_goodState_witness :
  goodState
    (runEvents demoProps
       [SelectPreset "4"; SelectPreset "custom"; KeyDown Hours "ArrowUp";
        KeyDown Minutes "9"; TextChange Seconds "75"]).
Proof.
  apply (runEvents_goodState demoProps).
  cbv. intuition discriminate.
Defined.

Lemma cell_keys_in_range (p : IntervalInput.Props) (key : string) (v : Z) :
  IntervalInput.min p <= IntervalInput.value p <= IntervalInput.max p ->
  In v (IntervalInput.committed (IntervalInput.handleKeyDown p key)) ->
  IntervalInput.min p <= v <= IntervalInput.max p.
Proof.
  intros Hv Hin.
  destruct (handleKeyDown_cases p key)
    as [H | [H | [H | [[_ H] | [[_ H] | [_ H]]]]]];
    rewrite H in Hin; cbn in Hin; try contradiction.
  - destruct Hin as [<- | []].
    destruct (Z.gtb_spec (IntervalInput.value p + 1) (IntervalInput.max p));
      lia.
  - destruct Hin as [<- | []].
    destruct (Z.ltb_spec (IntervalInput.value p - 1) (IntervalInput.min p));
      lia.
  - now apply committed_digitEntry in Hin.
Qed.

Lemma no_error_only_focus (t : list Effect) :
  (forall e, In e t -> exists g, e = Focus g) ->
  existsb isConsoleError t = false.
Proof.
  induction t as [|e t IH]; [reflexivity |]. intros H.
  destruct (H e (or_introl eq_refl)) as [g ->]. cbn.
  apply IH. intros e' He'. apply H. now right.
Qed.

Lemma setField_accepted (props : Props.t) (f : Field) (v : Z) :
  goodState props ->
  getMinValueForField f (interval props) (minInterval props) <= v
  <= getMaxValueForField f (interval props) (maxInterval props) ->
  existsb isConsoleError (setField props f v) = false.
Proof.
  intros (Hl & Hh & Hd & Hw) Hv.
  rewrite setField_handleIntervalChange.
  rewrite handleIntervalChange_valid; [reflexivity |].
  apply adjustedInterval_valid.
  exact (cell_range_valid _ _ _ f v Hd Hl Hh Hv).
Qed.

(** X15.  In a good state no key and no text replacement is ever rejected:
    every value a cell commits composes an update that passes the schema,
    so the editor never logs a diagnostic and never falls back to emitting
    the held duration again. *)
Theorem keyboard_never_rejected (props : Props.t) :
  goodState props ->
  (forall f key, existsb isConsoleError (keyDown props f key) = false)
  /\ (forall f text, existsb isConsoleError (textChange props f text) = false).
Proof.
  intros Hg.
  assert (Hcell : forall f,
             IntervalInput.min (inputProps props f)
             <= IntervalInput.value (inputProps props f)
             <= IntervalInput.max (inputProps props f)).
  { intros f. destruct Hg as (Hl & Hh & Hd & Hw).
    cbn [inputProps IntervalInput.min IntervalInput.value IntervalInput.max].
    now apply getField_in_cell_range. }
  split.
  - intros f key.
    destruct (keyDown_cases props f key)
      as [H | [H | [H | [_ (v & Hv & [H | H])]]]]; rewrite H.
    + reflexivity.
    + apply no_error_only_focus, leftFocus_only_focus.
    + apply no_error_only_focus, rightFocus_only_focus.
    + apply setField_accepted; [exact Hg |].
      exact (cell_keys_in_range _ key v (Hcell f) Hv).
    + rewrite existsb_app, setField_accepted; [| exact Hg |].
      * apply no_error_only_focus, rightFocus_only_focus.
      * exact (cell_keys_in_range _ key v (Hcell f) Hv).
  - intros f text. unfold textChange, IntervalInput.handleChange.
    destruct (rendered props f); [| reflexivity].
    destruct (Js.parseInt text) as [val |]; [| reflexivity].
    destruct (Z.geb_spec val (IntervalInput.min (inputProps props f))),
      (Z.leb_spec val (IntervalInput.max (inputProps props f)));
      cbn [andb flat_map perform app]; try reflexivity.
    rewrite app_nil_r. apply setField_accepted; [exact Hg |].
    cbn [inputProps IntervalInput.min IntervalInput.max] in *. lia.
Qed.

Lemma keyboard_never_rejected_witness :
  existsb isConsoleError (keyDown hiddenMinutesProps Hours "ArrowDown") = false
  /\ existsb isConsoleError (textChange hiddenMinutesProps Seconds "61")
     = false.
Proof.
  assert (Hg : goodState hiddenMinutesProps) by (cbv; intuition discriminate).
  destruct (keyboard_never_rejected hiddenMinutesProps Hg) as [Hk Ht].
  split; [apply Hk | apply Ht].
Defined.

(** ** Presets *)

(** X16.  With all three cells shown, selecting a preset whose duration has
    the schema's shape and lies between the bounds makes the owner hold
    exactly that duration, and the selected key when [onPresetChange] was
    given.  Selecting a preset without a duration leaves the held duration
    as it is. *)
Theorem select_preset_stores (props : Props.t) (key : string)
    (p : IntervalPreset.t) :
  findPreset (presets props) key = Some p ->
  Props.onPresetChange props = true ->
  Props.selectedPreset (dispatch props (SelectPreset key)) = Some key
  /\ (forall d,
         IntervalPreset.duration p = Some d ->
         validShape d ->
         withinBounds d (minInterval props) (maxInterval props) ->
         showHours props = true -> showMinutes props = true ->
         showSeconds props = true ->
         interval (dispatch props (SelectPreset key)) = d)
  /\ (IntervalPreset.duration p = None ->
      interval (dispatch props (SelectPreset key)) = interval props).
Proof.
  intros Hf Hcb. unfold dispatch. cbn [handle].
  split; [| split].
  - unfold handlePresetChange. rewrite Hf, Hcb.
    rewrite fold_left_app. reflexivity.
  - intros d Hd Hv Hw S1 S2 S3.
    rewrite (handlePresetChange_with_duration _ _ _ _ Hf Hd), Hcb.
    rewrite handleIntervalChange_valid
      by (rewrite adjustedInterval_all_shown; assumption).
    rewrite adjustedInterval_all_shown by assumption.
    apply clamp_fixed_iff in Hw. rewrite Hw. reflexivity.
  - intros Hd. unfold handlePresetChange. rewrite Hf, Hd, Hcb. reflexivity.
Qed.

Lemma select_preset_stores_witness :
  Props.selectedPreset (dispatch demoProps (SelectPreset "2")) = Some "2"%string
  /\ interval (dispatch demoProps (SelectPreset "2")) = mkDuration 6 0 0.
Proof.
  destruct (select_preset_stores demoProps "2"
              (IntervalPreset.mkPreset "2" "2" "6 Hours"
                 (Some (mkDuration 6 0 0))) eq_refl eq_refl)
    as (Hsel & Hdur & _).
  split; [exact Hsel |].
  apply Hdur; try reflexivity; cbv; intuition discriminate.
Defined.

(** ** How often the owner is called *)

Lemma emitted_setField (props : Props.t) (f : Field) (v : Z) :
  exists d, emitted (setField props f v) = [d].
Proof.
  rewrite setField_handleIntervalChange. apply handleIntervalChange_emits_once.
Qed.

(** X17.  An update that reaches [handleIntervalChange] calls [setInterval]
    exactly once, whether it is accepted, clamped or rejected, and one user
    event calls [setInterval] at most once. *)
Theorem setInterval_called_once (props : Props.t) :
  (forall n, List.length (emitted (handleIntervalChange props n)) = 1%nat)
  /\ (forall ev, (List.length (emitted (handle props ev)) <= 1)%nat).
Proof.
  split.
  - intros n. destruct (handleIntervalChange_emits_once props n) as [d ->].
    reflexivity.
  - intros [f key | f text | key]; cbn [handle].
    + destruct (keyDown_cases props f key)
        as [H | [H | [H | [_ (v & _ & [H | H])]]]]; rewrite H.
      * cbn. lia.
      * rewrite emitted_only_focus by apply leftFocus_only_focus. cbn. lia.
      * rewrite emitted_only_focus by apply rightFocus_only_focus. cbn. lia.
      * destruct (emitted_setField props f v) as [d ->]. cbn. lia.
      * rewrite emitted_app.
        destruct (emitted_setField props f v) as [d ->].
        rewrite emitted_only_focus by apply rightFocus_only_focus. cbn. lia.
    + unfold textChange, IntervalInput.handleChange.
      destruct (rendered props f); [| cbn; lia].
      destruct (Js.parseInt text) as [val |]; [| cbn; lia].
      destruct ((val >=? _) && (val <=? _)); [| cbn; lia].
      cbn [flat_map perform app]. rewrite app_nil_r.
      destruct (emitted_setField props f val) as [d ->]. cbn. lia.
    + unfold handlePresetChange.
      rewrite emitted_app, emitted_callback, app_nil_r.
      destruct (findPreset _ _) as [p |]; [| cbn; lia].
      destruct (IntervalPreset.duration p) as [d0 |]; [| cbn; lia].
      destruct (handleIntervalChange_emits_once props d0) as [d ->].
      cbn. lia.
Qed.

(** ** Bounds the wrong way round *)

(** X18.  When the total of the minimum exceeds that of the maximum the
    clamp never keeps a duration that differs from both bounds: it returns
    the minimum for every duration below the minimum and the maximum for
    every other one. *)
Theorem getNextValidDuration_inverted (d lo hi : Duration) :
  durationToMs hi < durationToMs lo ->
  (durationToMs d < durationToMs lo -> getNextValidDuration d lo hi = lo)
  /\ (durationToMs lo <= durationToMs d -> getNextValidDuration d lo hi = hi).
Proof.
  intros Hinv.
  destruct (getNextValidDuration_cases d lo hi)
    as [[H ->] | [(H1 & H2 & ->) | [H ->]]]; split; intros; try reflexivity;
    lia.
Qed.

Lemma getNextValidDuration_inverted_witness :
  getNextValidDuration (mkDuration 0 30 0) (mkDuration 1 0 0) (mkDuration 0 0 0)
  = mkDuration 1 0 0
  /\ getNextValidDuration
       (mkDuration 2 0 0) (mkDuration 1 0 0) (mkDuration 0 0 0)
     = mkDuration 0 0 0.
Proof.
  assert (Hinv : durationToMs (mkDuration 0 0 0)
                 < durationToMs (mkDuration 1 0 0)) by reflexivity.
  split.
  - apply (getNextValidDuration_inverted
             (mkDuration 0 30 0) (mkDuration 1 0 0) (mkDuration 0 0 0) Hinv).
    reflexivity.
  - apply (getNextValidDuration_inverted
             (mkDuration 2 0 0) (mkDuration 1 0 0) (mkDuration 0 0 0) Hinv).
    cbv. discriminate.
Defined.
